(** * Lexer.cpp: a shallow embedding of the lexical analyser

    The embedding follows [src/Lexer/src/Lexer.cpp] statement by statement.
    The braces of [Lexer::tokenize] are matched the way a C++ compiler
    matches them, which is not the way the indentation suggests:

    - the brace opened by [if (number.find('.') != string::npos)] on line 171
      is closed on line 175, so the [push_back] of line 174 belongs to the
      then-branch and line 176 is the else-branch of that [if];
    - the brace of line 179 closes the [else if (isDigit(c))] of line 168, and
      the operator, delimiter and fallback branches of lines 181-200 continue
      the same if-chain;
    - [return tokens;] on line 201 is the last statement of the body of the
      [while] of line 160, whose brace is closed on line 202;
    - line 203 closes [tokenize], after which no statement remains: when the
      loop condition is false on entry, control flows off the end of a
      function returning [vector<Token>]. *)

From Stdlib Require Import ZArith NArith Ascii String List Bool Lia.
From stdpp Require Import gmap strings.
Import ListNotations.

Local Open Scope string_scope.
Local Open Scope N_scope.

(** ** Token model (lines 9-27) *)

(** [enum class TokenType]: a scoped enumeration, hence a module of its own. *)
Module TokenType.
Inductive t : Type :=
| Keyword
| Identifier
| Integer
| Float
| String
| Operator
| Delimiter
| Unknown.

(** The enumerator of value 0, which a value-initialised [TokenType] holds. *)
Definition zero : t := Keyword.
End TokenType.

Record Token : Type := mkToken {
  type : TokenType.t;
  value : string
}.

(** ** Machine integers and characters *)

(** [size_t] is a 64-bit unsigned integer; [++] and [-] wrap around. *)
Definition SIZE_MOD : N := 2 ^ 64.

Definition size_incr (p : N) : N := (p + 1) mod SIZE_MOD.

Definition size_sub (a b : N) : N :=
  (a + SIZE_MOD - b mod SIZE_MOD) mod SIZE_MOD.

(** [s.length()], a [size_t]. A [std::string] never holds [SIZE_MOD]
    characters or more; [string_fits] states it of a Rocq string. *)
Definition string_length (s : string) : N := N.of_nat (String.length s).

Definition string_fits (s : string) : Prop := string_length s < SIZE_MOD.

(** A [char] promoted to [int] for a comparison. Plain [char] is taken as
    signed, as on x86-64; every constant compared below is either an ASCII
    code or larger than any [char], so the unsigned reading gives the same
    answers. *)
Definition char_int (c : ascii) : Z :=
  let n := Z.of_N (N_of_ascii c) in
  if (n <? 128)%Z then n else (n - 256)%Z.

(** A two-character literal such as ['//'] has type [int]; its value is the
    one GCC and Clang assign, the first character in the higher byte. *)
Definition multichar (a b : ascii) : Z :=
  Z.lor (Z.shiftl (char_int a) 8) (char_int b).

Definition char_eq (c : ascii) (k : Z) : bool := (char_int c =? k)%Z.
Definition char_ge (c : ascii) (k : Z) : bool := (k <=? char_int c)%Z.
Definition char_le (c : ascii) (k : Z) : bool := (char_int c <=? k)%Z.

(** A character literal of the source, as the [int] it is compared at. *)
Definition lit (c : ascii) : Z := char_int c.
Arguments lit c%_char.

(** [s[p]]: every use in the source is guarded by [p < s.length()]; past the
    end the model reads the terminating NUL. *)
Definition string_at (s : string) (p : N) : ascii :=
  match String.get (N.to_nat p) s with
  | Some c => c
  | None => "000"%char
  end.

(** [s.substr(pos, n)]: throws [std::out_of_range] ([None]) when [pos] is
    past the end, and clips [n] to what is left. *)
Definition substr (s : string) (pos n : N) : option string :=
  if string_length s <? pos then None
  else Some (String.substring (N.to_nat pos) (N.to_nat n) s).

(** [s.find(c) != string::npos] *)
Fixpoint string_has (c : ascii) (s : string) : bool :=
  match s with
  | EmptyString => false
  | String.String d s' => Ascii.eqb d c || string_has c s'
  end.

(** [string(1, c)] *)
Definition string1 (c : ascii) : string := String.String c EmptyString.

(** ** The lexer object (lines 30-35) *)

Record Lexer : Type := mkLexer {
  input : string;
  position : N;
  keywords : gmap string TokenType.t
}.

Definition set_position (p : N) (lx : Lexer) : Lexer :=
  {| input := input lx; position := p; keywords := keywords lx |}.

Definition set_keywords (m : gmap string TokenType.t) (lx : Lexer) : Lexer :=
  {| input := input lx; position := position lx; keywords := m |}.

(** [position++] *)
Definition position_incr (lx : Lexer) : Lexer :=
  set_position (size_incr (position lx)) lx.

(** ** [unordered_map] operations used by the lexer *)

(** [m[k] = v]: inserts or overwrites. *)
Definition map_assign (k : string) (v : TokenType.t)
    (m : gmap string TokenType.t) : gmap string TokenType.t :=
  <[k := v]> m.

(** [m.find(k) != m.end()] *)
Definition map_contains (k : string) (m : gmap string TokenType.t) : bool :=
  match m !! k with
  | Some _ => true
  | None => false
  end.

(** [m[k]] read as a value: a missing key is first inserted with a
    value-initialised [TokenType]. *)
Definition map_subscript (k : string) (m : gmap string TokenType.t)
    : TokenType.t * gmap string TokenType.t :=
  match m !! k with
  | Some v => (v, m)
  | None => (TokenType.zero, <[k := TokenType.zero]> m)
  end.

(** ** [initKeywords] (lines 40-56) *)

Definition initKeywords (lx : Lexer) : Lexer :=
  let kw := keywords lx in
  let kw := map_assign "int" TokenType.Keyword kw in
  let kw := map_assign "float" TokenType.Keyword kw in
  let kw := map_assign "string" TokenType.Keyword kw in
  let kw := map_assign "if" TokenType.Keyword kw in
  let kw := map_assign "else" TokenType.Keyword kw in
  let kw := map_assign "while" TokenType.Keyword kw in
  let kw := map_assign "for" TokenType.Keyword kw in
  let kw := map_assign "switch" TokenType.Keyword kw in
  let kw := map_assign "case" TokenType.Keyword kw in
  let kw := map_assign "default" TokenType.Keyword kw in
  let kw := map_assign "break" TokenType.Keyword kw in
  let kw := map_assign "continue" TokenType.Keyword kw in
  let kw := map_assign "return" TokenType.Keyword kw in
  let kw := map_assign "void" TokenType.Keyword kw in
  set_keywords kw lx.

(** ** Character classes (lines 66-102) *)

(** The literals of line 67 are [' '], ['\t'], ['\n'] and ['\r']. *)
Definition isWhitespace (c : ascii) : bool :=
  char_eq c (lit " ") || char_eq c (lit "009") || char_eq c (lit "010")
  || char_eq c (lit "013").

Definition isAlpha (c : ascii) : bool :=
  (char_ge c (lit "a") && char_le c (lit "z"))
  || (char_ge c (lit "A") && char_le c (lit "Z"))
  || (char_ge c (lit "0") && char_le c (lit "9")).

Definition isDigit (c : ascii) : bool :=
  char_ge c (lit "0") && char_le c (lit "9").

Definition isAlphaNumeric (c : ascii) : bool :=
  isAlpha c || isDigit c.

(** ** [getNextWord] (lines 111-117) *)

(** The condition of the [while] of line 113. *)
Definition word_continues (lx : Lexer) : bool :=
  (position lx <? string_length (input lx))
  && isAlphaNumeric (string_at (input lx) (position lx)).

(** The [while] of line 113. [fuel] bounds the number of iterations;
    [getNextWord_loop_stops] shows that the input length is enough for the
    loop to leave through its condition. *)
Fixpoint getNextWord_loop (fuel : nat) (lx : Lexer) : Lexer :=
  match fuel with
  | O => lx
  | S fuel' =>
      if word_continues lx
      then getNextWord_loop fuel' (position_incr lx)
      else lx
  end.

Definition getNextWord (lx : Lexer) : option string * Lexer :=
  let start := position lx in
  let lx := getNextWord_loop (String.length (input lx)) lx in
  (substr (input lx) start (size_sub (position lx) start), lx).

(** ** [getNextNumber] (lines 127-137) *)

(** The condition of the [while] of line 130. *)
Definition number_continues (lx : Lexer) : bool :=
  (position lx <? string_length (input lx))
  && (isDigit (string_at (input lx) (position lx))
      || char_eq (string_at (input lx) (position lx)) (lit ".")).

(** The [while] of line 130, carrying the local [isFloat];
    [getNextNumber_loop_stops] is the counterpart of the lemma above. *)
Fixpoint getNextNumber_loop (fuel : nat) (isFloat : bool) (lx : Lexer)
    : bool * Lexer :=
  match fuel with
  | O => (isFloat, lx)
  | S fuel' =>
      if number_continues lx
      then
        let isFloat :=
          if char_eq (string_at (input lx) (position lx)) (lit ".")
          then true else isFloat in
        getNextNumber_loop fuel' isFloat (position_incr lx)
      else (isFloat, lx)
  end.

Definition getNextNumber (lx : Lexer) : option string * Lexer :=
  let start := position lx in
  let isFloat := false in
  let '(_, lx) := getNextNumber_loop (String.length (input lx)) isFloat lx in
  (substr (input lx) start (size_sub (position lx) start), lx).

(** ** The constructor (lines 146-148) *)

Definition Lexer_new (inp : string) : Lexer :=
  initKeywords {| input := inp; position := 0; keywords := ∅ |}.

(** ** [tokenize] (lines 158-203) *)

(** How a call of [tokenize] ends: [return tokens;] was executed; or the
    closing brace of line 203 was reached with no [return], which C++ leaves
    undefined for a function returning a value; or [std::out_of_range] left
    the function. *)
Inductive completion : Type :=
| Returned (tokens : list Token)
| FlowedOffEnd
| Threw.

(** [tokens.push_back(t)] *)
Definition push_back (tokens : list Token) (t : Token) : list Token :=
  (tokens ++ [t])%list.

(** The block of lines 168-179. The [if] of line 171 holds both the
    assignment of [Float] and the [push_back]; its [else] is line 176. *)
Definition number_branch (tokens : list Token) (lx : Lexer)
    : option (list Token) * Lexer :=
  match getNextNumber lx with
  | (Some number, lx) =>
      let type := TokenType.Integer in
      if string_has "." number then
        let type := TokenType.Float in
        (Some (push_back tokens (mkToken type number)), lx)
      else
        (Some tokens, position_incr lx)
  | (None, lx) => (None, lx)
  end.

(** The if-chain of lines 162-200, for the character [c] read on line 161.
    The result is the token vector and the lexer after the chain, or [None]
    when a sub-scanner threw. *)
Definition dispatch (c : ascii) (tokens : list Token) (lx : Lexer)
    : option (list Token) * Lexer :=
  if isWhitespace c then
    (Some tokens, position_incr lx)
  else if isAlpha c then
    match getNextWord lx with
    | (Some word, lx) =>
        let '(type, lx) :=
          if map_contains word (keywords lx)
          then let '(v, kw) := map_subscript word (keywords lx) in
               (v, set_keywords kw lx)
          else (TokenType.Identifier, lx) in
        (Some (push_back tokens (mkToken type word)), lx)
    | (None, lx) => (None, lx)
    end
  else if isDigit c then
    number_branch tokens lx
  else if char_eq c (lit "+") || char_eq c (lit "-") || char_eq c (lit "*")
          || char_eq c (lit "/") || char_eq c (multichar "/" "/")
          || char_eq c (lit "%") then
    (Some (push_back tokens (mkToken TokenType.Operator (string1 c))),
     position_incr lx)
  else if char_eq c (lit "(") || char_eq c (lit ")") || char_eq c (lit ":")
          || char_eq c (multichar ":" "3") || char_eq c (lit "[")
          || char_eq c (lit "]") then
    (Some (push_back tokens (mkToken TokenType.Delimiter (string1 c))),
     position_incr lx)
  else
    (Some (push_back tokens (mkToken TokenType.Unknown (string1 c))),
     position_incr lx).

(** The body of the [while] ends in [return tokens;], so its condition is
    evaluated once: either the body runs and returns, or the loop is not
    entered and the function ends without a [return]. *)
Definition tokenize (lx : Lexer) : completion * Lexer :=
  let tokens : list Token := [] in
  if position lx <? string_length (input lx) then
    let c := string_at (input lx) (position lx) in
    match dispatch c tokens lx with
    | (Some tokens, lx) => (Returned tokens, lx)
    | (None, lx) => (Threw, lx)
    end
  else (FlowedOffEnd, lx).

(** ** Vocabulary of the properties *)

(** The spellings assigned by [initKeywords], in source order. *)
Definition keyword_spellings : list string :=
  ["int"; "float"; "string"; "if"; "else"; "while"; "for"; "switch"; "case";
   "default"; "break"; "continue"; "return"; "void"].

Definition is_letter (c : ascii) : bool :=
  (char_ge c (lit "a") && char_le c (lit "z"))
  || (char_ge c (lit "A") && char_le c (lit "Z")).

Definition alphabetic_leading (s : string) : bool :=
  match s with
  | String.String c _ => is_letter c
  | EmptyString => false
  end.

(** The texts of a token sequence, concatenated in order. *)
Definition token_texts (tokens : list Token) : string :=
  fold_right String.append "" (map value tokens).

(** The input with its whitespace characters removed. *)
Fixpoint strip_whitespace (s : string) : string :=
  match s with
  | EmptyString => EmptyString
  | String.String c s' =>
      if isWhitespace c then strip_whitespace s'
      else String.String c (strip_whitespace s')
  end.

(** The cursor has reached the end of the input. *)
Definition at_end (lx : Lexer) : Prop :=
  position lx = string_length (input lx).

(** A lexer whose input is a real [std::string] and whose cursor is inside
    it or at its end. *)
Definition in_bounds (lx : Lexer) : Prop :=
  string_fits (input lx) /\ position lx <= string_length (input lx).

(** Membership in [keyword_spellings], as a test. *)
Definition is_keyword_spelling (w : string) : bool :=
  existsb (String.eqb w) keyword_spellings.

(** What the if-chain appends to the token vector when it reads [c] in the
    state [lx]. The branch of lines 168-179 has no case: it is guarded by
    [isDigit c] after [isAlpha c] has failed (see [isDigit_isAlpha]). *)
Inductive emitted_by (lx : Lexer) (c : ascii) : list Token -> Prop :=
| emitted_none :
    isWhitespace c = true ->
    emitted_by lx c []
| emitted_word (word : string) (lx1 : Lexer) :
    isWhitespace c = false ->
    isAlpha c = true ->
    getNextWord lx = (Some word, lx1) ->
    emitted_by lx c
      [mkToken (match keywords lx !! word with
                | Some v => v
                | None => TokenType.Identifier
                end) word]
| emitted_single (ty : TokenType.t) :
    isWhitespace c = false ->
    isAlpha c = false ->
    In ty [TokenType.Operator; TokenType.Delimiter; TokenType.Unknown] ->
    emitted_by lx c [mkToken ty (string1 c)].

(** ** Printing (lines 212-278) *)

(** [getTokenTypeName] (lines 212-233). The [default] label of the [switch]
    answers for values outside the enumeration, which [TokenType.t] does not
    hold. *)
Definition getTokenTypeName (type : TokenType.t) : string :=
  match type with
  | TokenType.Keyword => "keyword"
  | TokenType.Identifier => "identifier"
  | TokenType.Integer => "integer"
  | TokenType.Float => "float"
  | TokenType.String => "string"
  | TokenType.Operator => "operator"
  | TokenType.Delimiter => "delimiter"
  | TokenType.Unknown => "unknown"
  end.

(** [cout] is the text written to the standard output so far; [os << s]
    appends to it, and [endl] writes a newline. *)
Definition put (os : string) (s : string) : string := String.append os s.

Definition endl : string := String.String "010"%char EmptyString.

(** The body of the [for] of lines 245-247, for one token. *)
Definition printToken (cout : string) (token : Token) : string :=
  put (put (put (put (put cout "Token: ") (getTokenTypeName (type token)))
                 ", Value: ") (value token)) endl.

(** [printTokens] (lines 244-248) *)
Definition printTokens (tokens : list Token) (cout : string) : string :=
  fold_left printToken tokens cout.

(** [main] (lines 272-278): the exit code and the standard output, or [None]
    when [tokenize] does not return. *)
Definition main (cout : string) : option (Z * string) :=
  let input := "int main() { return 0; }" in
  let lexer := Lexer_new input in
  match tokenize lexer with
  | (Returned tokens, lexer) =>
      let cout := printTokens tokens cout in
      Some (0%Z, cout)
  | (_, lexer) => None
  end.

(** ** Vocabulary of the further properties *)

(** The string from offset [n] on. *)
Fixpoint string_drop (n : nat) (s : string) : string :=
  match n, s with
  | O, _ => s
  | S n', String.String _ s' => string_drop n' s'
  | S _, EmptyString => EmptyString
  end.

(** The input from the cursor on. *)
Definition remaining (lx : Lexer) : string :=
  string_drop (N.to_nat (position lx)) (input lx).

(** The longest prefix whose characters all pass [ok]. *)
Fixpoint take_while (ok : ascii -> bool) (s : string) : string :=
  match s with
  | String.String c s' =>
      if ok c then String.String c (take_while ok s') else EmptyString
  | EmptyString => EmptyString
  end.

Fixpoint string_forall (ok : ascii -> bool) (s : string) : bool :=
  match s with
  | String.String c s' => ok c && string_forall ok s'
  | EmptyString => true
  end.

(** The characters the loop of line 130 accepts. *)
Definition isNumberChar (c : ascii) : bool :=
  isDigit c || char_eq c (lit ".").

(** The cursor moved to [position lx + n]. *)
Definition advanced (n : nat) (lx : Lexer) : Lexer :=
  set_position (position lx + N.of_nat n) lx.

(** The kind the if-chain gives a character that is neither whitespace nor
    the start of a word. *)
Definition single_kind (c : ascii) : TokenType.t :=
  if existsb (Ascii.eqb c) ["+"; "-"; "*"; "/"; "%"]%char
  then TokenType.Operator
  else if existsb (Ascii.eqb c) ["("; ")"; ":"; "["; "]"]%char
  then TokenType.Delimiter
  else TokenType.Unknown.

(** The kind of a token, read off its text alone. *)
Definition kind_of_text (s : string) : TokenType.t :=
  match s with
  | String.String c _ =>
      if isAlpha c
      then if is_keyword_spelling s
           then TokenType.Keyword else TokenType.Identifier
      else single_kind c
  | EmptyString => TokenType.Unknown
  end.

(** The line [printTokens] writes for one token. *)
Definition token_line (token : Token) : string :=
  String.append "Token: "
    (String.append (getTokenTypeName (type token))
       (String.append ", Value: " (String.append (value token) endl))).

(** The lines of a token vector, one after the other. *)
Definition token_lines (tokens : list Token) : string :=
  fold_right String.append "" (map token_line tokens).

(** ** Characters *)

Lemma isDigit_isAlpha (c : ascii) : isDigit c = true -> isAlpha c = true.
Proof.
  unfold isDigit, isAlpha. intros ->. apply orb_true_r.
Qed.

Lemma isAlpha_isAlphaNumeric (c : ascii) :
  isAlpha c = true -> isAlphaNumeric c = true.
Proof.
  unfold isAlphaNumeric. intros ->. reflexivity.
Qed.

Lemma is_letter_isAlpha (c : ascii) : is_letter c = true -> isAlpha c = true.
Proof.
  unfold is_letter, isAlpha. intros ->. reflexivity.
Qed.

Lemma char_int_range (c : ascii) : (-128 <= char_int c < 128)%Z.
Proof.
  unfold char_int.
  pose proof (N_ascii_bounded c) as Hb.
  destruct (Z.ltb_spec (Z.of_N (N_of_ascii c)) 128); lia.
Qed.

(** A [char] never equals a two-character literal: the comparisons with
    ['//'] on line 181 and with [':3'] on line 193 are always false. *)
Lemma char_eq_multichar (c a b : ascii) :
  (128 <= multichar a b)%Z -> char_eq c (multichar a b) = false.
Proof.
  intros Hk. unfold char_eq. pose proof (char_int_range c).
  apply Z.eqb_neq. lia.
Qed.

(** ** [size_t] arithmetic below the length of a string *)

Lemma size_incr_small (p n : N) :
  p < n -> n < SIZE_MOD -> size_incr p = p + 1.
Proof.
  intros Hp Hn. unfold size_incr. apply N.mod_small. lia.
Qed.

Lemma size_sub_small (a b : N) :
  b <= a -> a < SIZE_MOD -> size_sub a b = a - b.
Proof.
  intros Hb Ha. unfold size_sub.
  rewrite (N.mod_small b) by lia.
  replace (a + SIZE_MOD - b) with ((a - b) + 1 * SIZE_MOD) by lia.
  rewrite N.Div0.mod_add. apply N.mod_small. lia.
Qed.

Lemma substring_length (s : string) :
  forall n m : nat,
    (n + m <= String.length s)%nat ->
    String.length (String.substring n m s) = m.
Proof.
  induction s as [|c s IH]; intros n m Hle; simpl in *.
  - destruct n, m; simpl; lia.
  - destruct n as [|n].
    + destruct m as [|m]; simpl; [reflexivity|].
      rewrite (IH 0%nat m) by lia. reflexivity.
    + apply IH. lia.
Qed.

(** ** The two scanning loops *)

Lemma position_incr_in_bounds (lx : Lexer) :
  string_fits (input lx) ->
  position lx < string_length (input lx) ->
  in_bounds (position_incr lx) /\ position (position_incr lx) = position lx + 1.
Proof.
  intros Hfit Hlt. unfold in_bounds, position_incr; simpl.
  rewrite (size_incr_small _ _ Hlt Hfit). repeat split; [assumption | lia].
Qed.

Lemma word_continues_lt (lx : Lexer) :
  word_continues lx = true -> position lx < string_length (input lx).
Proof.
  unfold word_continues. intros H. apply andb_prop in H as [H _].
  now apply N.ltb_lt.
Qed.

Lemma number_continues_lt (lx : Lexer) :
  number_continues lx = true -> position lx < string_length (input lx).
Proof.
  unfold number_continues. intros H. apply andb_prop in H as [H _].
  now apply N.ltb_lt.
Qed.

Section WordLoop.

(** The loop touches nothing but the cursor. *)
Lemma getNextWord_loop_frame (fuel : nat) :
  forall lx,
    input (getNextWord_loop fuel lx) = input lx
    /\ keywords (getNextWord_loop fuel lx) = keywords lx.
Proof.
  induction fuel as [|fuel IH]; intros lx; simpl; [easy|].
  destruct (word_continues lx); [|easy].
  destruct (IH (position_incr lx)) as [-> ->]. easy.
Qed.

(** The cursor only moves forward, and stays inside the input. *)
Lemma getNextWord_loop_bounds (fuel : nat) :
  forall lx,
    in_bounds lx ->
    position lx <= position (getNextWord_loop fuel lx)
    /\ position (getNextWord_loop fuel lx) <= string_length (input lx).
Proof.
  induction fuel as [|fuel IH]; intros lx [Hfit Hle]; simpl; [lia|].
  destruct (word_continues lx) eqn:Hc; [|lia].
  apply word_continues_lt in Hc.
  destruct (position_incr_in_bounds lx Hfit Hc) as [Hb Hp].
  specialize (IH _ Hb). rewrite Hp in IH.
  change (input (position_incr lx)) with (input lx) in IH. lia.
Qed.

(** With one unit of fuel per remaining character the loop leaves because
    its condition is false, not because the fuel is spent. *)
Lemma getNextWord_loop_stops (fuel : nat) :
  forall lx,
    in_bounds lx ->
    string_length (input lx) - position lx <= N.of_nat fuel ->
    word_continues (getNextWord_loop fuel lx) = false.
Proof.
  induction fuel as [|fuel IH]; intros lx [Hfit Hle] Hfuel; simpl.
  - unfold word_continues.
    replace (position lx <? string_length (input lx)) with false; [easy|].
    symmetry. apply N.ltb_ge. lia.
  - destruct (word_continues lx) eqn:Hc; [|assumption].
    apply word_continues_lt in Hc.
    destruct (position_incr_in_bounds lx Hfit Hc) as [Hb Hp].
    apply IH; [assumption|]. rewrite Hp. simpl. lia.
Qed.

(** Entered on a character that continues a word, the loop consumes it. *)
Lemma getNextWord_loop_progress (fuel : nat) (lx : Lexer) :
  in_bounds lx ->
  word_continues lx = true ->
  position lx + 1 <= position (getNextWord_loop (S fuel) lx).
Proof.
  intros [Hfit Hle] Hc. simpl. rewrite Hc.
  apply word_continues_lt in Hc.
  destruct (position_incr_in_bounds lx Hfit Hc) as [Hb Hp].
  pose proof (getNextWord_loop_bounds fuel _ Hb) as [Hlo _].
  rewrite Hp in Hlo. exact Hlo.
Qed.

End WordLoop.

Section NumberLoop.

Lemma getNextNumber_loop_frame (fuel : nat) :
  forall isFloat lx,
    input (snd (getNextNumber_loop fuel isFloat lx)) = input lx
    /\ keywords (snd (getNextNumber_loop fuel isFloat lx)) = keywords lx.
Proof.
  induction fuel as [|fuel IH]; intros isFloat lx; simpl; [easy|].
  destruct (number_continues lx); [|easy].
  match goal with |- context [getNextNumber_loop fuel ?b ?l] =>
    destruct (IH b l) as [-> ->] end.
  easy.
Qed.

Lemma getNextNumber_loop_bounds (fuel : nat) :
  forall isFloat lx,
    in_bounds lx ->
    position lx <= position (snd (getNextNumber_loop fuel isFloat lx))
    /\ position (snd (getNextNumber_loop fuel isFloat lx))
       <= string_length (input lx).
Proof.
  induction fuel as [|fuel IH]; intros isFloat lx [Hfit Hle]; simpl; [lia|].
  destruct (number_continues lx) eqn:Hc; [|simpl; lia].
  apply number_continues_lt in Hc.
  destruct (position_incr_in_bounds lx Hfit Hc) as [Hb Hp].
  match goal with |- context [getNextNumber_loop fuel ?b ?l] =>
    specialize (IH b l Hb) end.
  rewrite Hp in IH. change (input (position_incr lx)) with (input lx) in IH.
  lia.
Qed.

Lemma getNextNumber_loop_stops (fuel : nat) :
  forall isFloat lx,
    in_bounds lx ->
    string_length (input lx) - position lx <= N.of_nat fuel ->
    number_continues (snd (getNextNumber_loop fuel isFloat lx)) = false.
Proof.
  induction fuel as [|fuel IH]; intros isFloat lx [Hfit Hle] Hfuel; simpl.
  - unfold number_continues.
    replace (position lx <? string_length (input lx)) with false; [easy|].
    symmetry. apply N.ltb_ge. lia.
  - destruct (number_continues lx) eqn:Hc; [|assumption].
    apply number_continues_lt in Hc.
    destruct (position_incr_in_bounds lx Hfit Hc) as [Hb Hp].
    apply IH; [assumption|]. rewrite Hp. simpl. lia.
Qed.

End NumberLoop.

(** ** The sub-scanners *)

(** What [getNextWord] does when the cursor is on a character that starts a
    word: it returns normally with a non-empty word, leaves the cursor
    strictly further and still inside the input, on a character that does not
    continue the word, and changes nothing else. *)
Lemma getNextWord_spec (lx : Lexer) :
  in_bounds lx ->
  position lx < string_length (input lx) ->
  isAlpha (string_at (input lx) (position lx)) = true ->
  exists word lx',
    getNextWord lx = (Some word, lx')
    /\ input lx' = input lx
    /\ keywords lx' = keywords lx
    /\ position lx < position lx'
    /\ position lx' <= string_length (input lx)
    /\ String.length word = N.to_nat (position lx' - position lx)
    /\ word_continues lx' = false.
Proof.
  intros Hb Hlt Ha. pose proof Hb as [Hfit Hle].
  assert (Hc : word_continues lx = true).
  { unfold word_continues. apply andb_true_intro. split.
    - now apply N.ltb_lt.
    - now apply isAlpha_isAlphaNumeric. }
  unfold getNextWord.
  set (lx' := getNextWord_loop (String.length (input lx)) lx).
  destruct (getNextWord_loop_frame (String.length (input lx)) lx) as [Hi Hk].
  destruct (getNextWord_loop_bounds (String.length (input lx)) lx Hb)
    as [Hlo Hhi].
  assert (Hstop : word_continues lx' = false).
  { apply getNextWord_loop_stops; [assumption|].
    unfold string_length. lia. }
  assert (Hprog : position lx + 1 <= position lx').
  { unfold lx'. destruct (String.length (input lx)) as [|n] eqn:Hn.
    - unfold string_length in Hlt. rewrite Hn in Hlt. lia.
    - now apply getNextWord_loop_progress. }
  fold lx' in Hi, Hk, Hlo, Hhi.
  unfold substr. rewrite Hi.
  replace (string_length (input lx) <? position lx) with false
    by (symmetry; apply N.ltb_ge; lia).
  eexists _, lx'. split; [reflexivity|].
  repeat split; try assumption; try lia.
  unfold string_fits in Hfit.
  rewrite size_sub_small by lia.
  apply substring_length. unfold string_length in *. lia.
Qed.

(** ** The keyword table *)

Lemma is_keyword_spelling_In (w : string) :
  is_keyword_spelling w = true <-> In w keyword_spellings.
Proof.
  unfold is_keyword_spelling. rewrite existsb_exists. split.
  - intros (x & Hin & Heq). apply String.eqb_eq in Heq. now subst.
  - intros Hin. exists w. split; [assumption | apply String.eqb_refl].
Qed.

(** The table the constructor builds, read through [find]. *)
Lemma keywords_new_lookup (inp w : string) :
  keywords (Lexer_new inp) !! w
  = if is_keyword_spelling w then Some TokenType.Keyword else None.
Proof.
  unfold Lexer_new, initKeywords, map_assign, set_keywords; simpl.
  repeat (rewrite lookup_insert; case_decide; [subst w; reflexivity|]).
  rewrite lookup_empty.
  unfold is_keyword_spelling, keyword_spellings; simpl.
  repeat match goal with
         | H : ?k <> w |- _ =>
             rewrite (proj2 (String.eqb_neq w k)) by congruence; clear H
         end.
  reflexivity.
Qed.

Lemma keywords_new_size (inp : string) :
  size (keywords (Lexer_new inp)) = 14%nat.
Proof. reflexivity. Qed.

(** ** One pass through the if-chain *)

Lemma getNextWord_frame (lx : Lexer) :
  input (snd (getNextWord lx)) = input lx
  /\ keywords (snd (getNextWord lx)) = keywords lx.
Proof. unfold getNextWord; simpl. apply getNextWord_loop_frame. Qed.

Lemma getNextNumber_frame (lx : Lexer) :
  input (snd (getNextNumber lx)) = input lx
  /\ keywords (snd (getNextNumber lx)) = keywords lx.
Proof.
  unfold getNextNumber.
  pose proof (getNextNumber_loop_frame (String.length (input lx)) false lx)
    as H.
  destruct (getNextNumber_loop _ _ _) as [b lx1]. exact H.
Qed.

(** [keywords[word]] is only evaluated after [find] has succeeded, where it
    reads the entry and leaves the table as it is. *)
Lemma map_subscript_found (k : string) (m : gmap string TokenType.t) :
  map_contains k m = true ->
  exists v, m !! k = Some v /\ map_subscript k m = (v, m).
Proof.
  unfold map_contains, map_subscript.
  destruct (m !! k) as [v|]; [|discriminate].
  intros _. exists v. split; reflexivity.
Qed.

Lemma map_contains_false (k : string) (m : gmap string TokenType.t) :
  map_contains k m = false -> m !! k = None.
Proof.
  unfold map_contains. destruct (m !! k); [discriminate | reflexivity].
Qed.

Lemma dispatch_keywords (c : ascii) (tokens : list Token) (lx : Lexer) :
  keywords (snd (dispatch c tokens lx)) = keywords lx.
Proof.
  unfold dispatch.
  destruct (isWhitespace c); [reflexivity|].
  destruct (isAlpha c).
  { pose proof (getNextWord_frame lx) as [_ Hk].
    destruct (getNextWord lx) as [[word|] lx1]; simpl in Hk; [|exact Hk].
    destruct (map_contains word (keywords lx1)) eqn:Hf; [|exact Hk].
    destruct (map_subscript_found _ _ Hf) as (v & _ & ->). exact Hk. }
  destruct (isDigit c).
  { unfold number_branch.
    pose proof (getNextNumber_frame lx) as [_ Hk].
    destruct (getNextNumber lx) as [[number|] lx1]; simpl in Hk; [|exact Hk].
    destruct (string_has "." number); exact Hk. }
  repeat match goal with
         | |- context [if ?b then _ else _] => destruct b
         end; reflexivity.
Qed.

Lemma dispatch_emits (c : ascii) (tokens tokens' : list Token)
    (lx lx' : Lexer) :
  dispatch c tokens lx = (Some tokens', lx') ->
  exists emitted,
    tokens' = (tokens ++ emitted)%list /\ emitted_by lx c emitted.
Proof.
  unfold dispatch.
  destruct (isWhitespace c) eqn:Hw.
  { intros [= <- _]. exists []. split; [now rewrite app_nil_r|].
    now constructor. }
  destruct (isAlpha c) eqn:Ha.
  { pose proof (getNextWord_frame lx) as [_ Hk].
    destruct (getNextWord lx) as [[word|] lx1] eqn:Hg; [|discriminate].
    simpl in Hk.
    assert (Hty : (if map_contains word (keywords lx1)
                   then fst (map_subscript word (keywords lx1))
                   else TokenType.Identifier)
                  = match keywords lx !! word with
                    | Some v => v
                    | None => TokenType.Identifier
                    end).
    { rewrite Hk. destruct (map_contains word (keywords lx)) eqn:Hf.
      - destruct (map_subscript_found _ _ Hf) as (v & -> & ->). reflexivity.
      - now rewrite (map_contains_false _ _ Hf). }
    intros Hd. eexists. split; [|eapply (emitted_word lx c word lx1); eauto].
    rewrite <- Hty.
    destruct (map_contains word (keywords lx1));
      [destruct (map_subscript word (keywords lx1))|];
      now injection Hd as <- _. }
  destruct (isDigit c) eqn:Hd.
  { apply isDigit_isAlpha in Hd. congruence. }
  repeat match goal with
         | |- context [if ?b then _ else _] => destruct b
         end;
    intros [= <- _]; eexists; (split; [reflexivity|]);
    apply emitted_single; simpl; auto.
Qed.

(** [tokenize] returns exactly when the cursor is inside the input on
    entry, and then with what one pass through the if-chain has emitted. *)
Lemma tokenize_Returned (lx : Lexer) (tokens : list Token) :
  fst (tokenize lx) = Returned tokens ->
  position lx < string_length (input lx)
  /\ emitted_by lx (string_at (input lx) (position lx)) tokens.
Proof.
  unfold tokenize.
  destruct (position lx <? string_length (input lx)) eqn:Hlt;
    [|discriminate].
  apply N.ltb_lt in Hlt.
  destruct (dispatch _ [] lx) as [[tokens'|] lx'] eqn:Hd; [|discriminate].
  simpl. intros [= ->]. split; [assumption|].
  destruct (dispatch_emits _ _ _ _ _ Hd) as (emitted & -> & He). exact He.
Qed.

Lemma tokenize_keywords (lx : Lexer) :
  keywords (snd (tokenize lx)) = keywords lx.
Proof.
  unfold tokenize.
  destruct (position lx <? string_length (input lx)); [|reflexivity].
  pose proof (dispatch_keywords (string_at (input lx) (position lx)) [] lx)
    as Hk.
  destruct (dispatch _ [] lx) as [[tokens'|] lx']; exact Hk.
Qed.

(** The block of lines 168-179 is dead code. Entered all the same, it
    pushes a token for a run that holds a ['.'] and none for a run of digits
    alone, after which it moves the cursor one character further. *)
Example number_branch_float :
  number_branch [] (Lexer_new "3.14 ")
  = (Some [mkToken TokenType.Float "3.14"],
     set_position 4 (Lexer_new "3.14 ")).
Proof. vm_compute. reflexivity. Qed.

Example number_branch_integer :
  number_branch [] (Lexer_new "42 ")
  = (Some [], set_position 3 (Lexer_new "42 ")).
Proof. vm_compute. reflexivity. Qed.

(** A pass through the if-chain returns normally and leaves the cursor
    strictly further, still inside the input or at its end. *)
Lemma tokenize_progress (lx : Lexer) :
  in_bounds lx ->
  position lx < string_length (input lx) ->
  exists tokens,
    fst (tokenize lx) = Returned tokens
    /\ input (snd (tokenize lx)) = input lx
    /\ position lx < position (snd (tokenize lx))
    /\ position (snd (tokenize lx)) <= string_length (input lx).
Proof.
  intros Hb Hlt. pose proof Hb as [Hfit _].
  pose proof (size_incr_small _ _ Hlt Hfit) as Hp.
  unfold tokenize. rewrite (proj2 (N.ltb_lt _ _) Hlt).
  set (c := string_at (input lx) (position lx)).
  unfold dispatch.
  destruct (isWhitespace c).
  { eexists; simpl; rewrite Hp; repeat split; lia. }
  destruct (isAlpha c) eqn:Ha.
  { destruct (getNextWord_spec lx Hb Hlt Ha)
      as (word & lx1 & -> & Hi & _ & Hlo & Hhi & _).
    destruct (map_contains word (keywords lx1));
      [destruct (map_subscript word (keywords lx1))|];
      eexists; simpl; repeat split; assumption. }
  destruct (isDigit c) eqn:Hd.
  { apply isDigit_isAlpha in Hd. congruence. }
  repeat match goal with
         | |- context [if ?b then _ else _] => destruct b
         end;
    eexists; simpl; rewrite Hp; repeat split; lia.
Qed.



(** On a whitespace character the call skips it and returns no token. *)
Lemma tokenize_whitespace (lx : Lexer) :
  position lx < string_length (input lx) ->
  isWhitespace (string_at (input lx) (position lx)) = true ->
  tokenize lx = (Returned [], position_incr lx).
Proof.
  intros Hlt Hw. unfold tokenize, dispatch.
  now rewrite (proj2 (N.ltb_lt _ _) Hlt), Hw.
Qed.

(** The fallback branch of lines 197-200, taken on its own: a character
    of no other class gives one [Unknown] token holding that character, and
    the cursor moves by one. *)
Lemma tokenize_unknown (lx : Lexer) :
  let c := string_at (input lx) (position lx) in
  position lx < string_length (input lx) ->
  isWhitespace c = false ->
  isAlpha c = false ->
  ~ In (char_int c) [lit "+"; lit "-"; lit "*"; lit "/"; lit "%";
                     lit "("; lit ")"; lit ":"; lit "["; lit "]"] ->
  tokenize lx
  = (Returned [mkToken TokenType.Unknown (string1 c)], position_incr lx).
Proof.
  intros c Hlt Hw Ha Hin. unfold tokenize, dispatch. fold c.
  rewrite (proj2 (N.ltb_lt _ _) Hlt), Hw, Ha.
  destruct (isDigit c) eqn:Hd.
  { apply isDigit_isAlpha in Hd. congruence. }
  assert (Hne : forall k, In k [lit "+"; lit "-"; lit "*"; lit "/"; lit "%";
                                lit "("; lit ")"; lit ":"; lit "["; lit "]"] ->
                          char_eq c k = false).
  { intros k Hk. unfold char_eq. apply Z.eqb_neq. intros Heq.
    apply Hin. now rewrite Heq. }
  rewrite !char_eq_multichar by (vm_compute; discriminate).
  rewrite !Hne by (simpl; tauto).
  reflexivity.
Qed.

(** The two shapes of a token emitted over the table of the constructor:
    a word classified by its membership in the table, or one character of
    no word. *)
Lemma emitted_by_new_table (inp : string) (lx : Lexer) (c : ascii)
    (tokens : list Token) (t : Token) :
  keywords lx = keywords (Lexer_new inp) ->
  emitted_by lx c tokens ->
  In t tokens ->
  (isAlpha c = true
   /\ type t = if is_keyword_spelling (value t)
               then TokenType.Keyword else TokenType.Identifier)
  \/ (isAlpha c = false
      /\ value t = string1 c
      /\ In (type t)
            [TokenType.Operator; TokenType.Delimiter; TokenType.Unknown]).
Proof.
  intros Hk He Hin.
  destruct He as [Hw | word lx1 Hw Ha Hg | ty Hw Ha Hty].
  - contradiction.
  - destruct Hin as [<-|[]]. left. split; [assumption|].
    cbn [type value]. rewrite Hk, keywords_new_lookup.
    now destruct (is_keyword_spelling word).
  - destruct Hin as [<-|[]]. right. now repeat split.
Qed.

(** No call of [tokenize] on a freshly built table yields an [Integer] or a
    [Float] token: digits are taken by the word branch. *)
Lemma tokenize_emits_no_number (inp : string) (p : N)
    (tokens : list Token) (t : Token) :
  fst (tokenize (set_position p (Lexer_new inp))) = Returned tokens ->
  In t tokens ->
  type t <> TokenType.Integer /\ type t <> TokenType.Float.
Proof.
  intros Hr Hin. apply tokenize_Returned in Hr as [_ He].
  destruct (emitted_by_new_table inp (set_position p (Lexer_new inp))
              _ _ _ eq_refl He Hin)
    as [[_ ->] | (_ & _ & Hty)].
  - destruct (is_keyword_spelling (value t)); split; discriminate.
  - simpl in Hty. destruct Hty as [<-|[<-|[<-|[]]]]; split; discriminate.
Qed.

(** * The claims *)

(** C1 (the code departs from it). The claim: on every input [tokenize]
    returns a complete token sequence, the cursor advancing until the end.
    On ["a b"] the call returns after the first pass through the if-chain,
    with the single token [Identifier "a"] and the cursor at 1 of 3. *)
Theorem tokenize_returns_after_one_pass :
  let r := tokenize (Lexer_new "a b") in
  fst r = Returned [mkToken TokenType.Identifier "a"]
  /\ position (snd r) = 1
  /\ ~ at_end (snd r).
Proof.
  repeat split; try (vm_compute; reflexivity).
  unfold at_end. vm_compute. discriminate.
Qed.

(** C2 (the code departs from it). The claim: a consumed numeric run gives
    one [Integer] or [Float] token. On ["42"] the run is consumed by the word
    scanner and comes out as an [Identifier]. *)
Theorem tokenize_digits_as_identifier :
  fst (tokenize (Lexer_new "42"))
  = Returned [mkToken TokenType.Identifier "42"].
Proof. vm_compute. reflexivity. Qed.

(** C3 (the code departs from it). The claim: ["3.14 + x1"] gives [Float
    "3.14"], [Operator "+"], [Identifier "x1"]. The code returns the single
    token [Identifier "3"]. *)
Theorem tokenize_scenario_3 :
  fst (tokenize (Lexer_new "3.14 + x1"))
  = Returned [mkToken TokenType.Identifier "3"].
Proof. vm_compute. reflexivity. Qed.

(** C4 (the code departs from it). The claim: ["int main() { return 0; }"]
    gives nine tokens. The code returns the single token [Keyword "int"]. *)
Theorem tokenize_scenario_1 :
  fst (tokenize (Lexer_new "int main() { return 0; }"))
  = Returned [mkToken TokenType.Keyword "int"].
Proof. vm_compute. reflexivity. Qed.

(** C5. Every token returned by [tokenize], from any cursor position over a
    freshly built keyword table, whose text is one of the fourteen spellings
    has kind [Keyword]; every token whose text begins with a letter and is
    not one of the spellings has kind [Identifier]. *)
Theorem keyword_precedence (inp : string) (p : N)
    (tokens : list Token) (t : Token) :
  fst (tokenize (set_position p (Lexer_new inp))) = Returned tokens ->
  In t tokens ->
  (In (value t) keyword_spellings -> type t = TokenType.Keyword)
  /\ (~ In (value t) keyword_spellings ->
      alphabetic_leading (value t) = true ->
      type t = TokenType.Identifier).
Proof.
  intros Hr Hin. apply tokenize_Returned in Hr as [_ He].
  destruct (emitted_by_new_table inp (set_position p (Lexer_new inp))
              _ _ _ eq_refl He Hin)
    as [[_ ->] | (Ha & -> & _)].
  - destruct (is_keyword_spelling (value t)) eqn:Hk.
    + split; [reflexivity|]. intros Hn. exfalso. apply Hn.
      now apply is_keyword_spelling_In.
    + split; [|reflexivity]. intros Hi.
      apply is_keyword_spelling_In in Hi. congruence.
  - split.
    + unfold keyword_spellings, string1. simpl. intros Hi.
      repeat (destruct Hi as [Hi|Hi]; [discriminate Hi|]). contradiction.
    + intros _ Hl. apply is_letter_isAlpha in Hl. congruence.
Qed.

Lemma keyword_precedence_witness :
  fst (tokenize (set_position 4 (Lexer_new "int return x")))
  = Returned [mkToken TokenType.Keyword "return"]
  /\ In (mkToken TokenType.Keyword "return")
        [mkToken TokenType.Keyword "return"]
  /\ (In "return" keyword_spellings ->
      type (mkToken TokenType.Keyword "return") = TokenType.Keyword)
  /\ (~ In "return" keyword_spellings ->
      alphabetic_leading "return" = true ->
      type (mkToken TokenType.Keyword "return") = TokenType.Identifier).
Proof.
  split; [vm_compute; reflexivity|].
  split; [left; reflexivity|].
  apply (keyword_precedence "int return x" 4
           [mkToken TokenType.Keyword "return"]
           (mkToken TokenType.Keyword "return")).
  - vm_compute; reflexivity.
  - left; reflexivity.
Defined.

(** C6 (the code departs from it). The claim: every input character of no
    other class gives an [Unknown] token. On ["a@"] the call returns after
    the word ["a"]; the cursor stays on ['@'] and no token is made of it. *)
Theorem tokenize_leaves_unknown_unscanned :
  let r := tokenize (Lexer_new "a@") in
  fst r = Returned [mkToken TokenType.Identifier "a"]
  /\ position (snd r) = 1
  /\ string_at (input (snd r)) (position (snd r)) = "@"%char.
Proof. repeat split; vm_compute; reflexivity. Qed.

(** C7 (the code departs from it). The claim: the token texts, with the
    whitespace put back, rebuild the input. On ["a b"] the texts of the
    returned tokens give ["a"], the input without its whitespace is ["ab"]. *)
Theorem tokenize_loses_text :
  exists tokens,
    fst (tokenize (Lexer_new "a b")) = Returned tokens
    /\ token_texts tokens = "a"
    /\ strip_whitespace "a b" = "ab"
    /\ token_texts tokens <> strip_whitespace "a b".
Proof.
  eexists. split; [vm_compute; reflexivity|].
  repeat split; try (vm_compute; reflexivity).
  vm_compute. discriminate.
Qed.

(** C8 (the code departs from it). The claim: the empty input gives the
    empty token sequence. On [""] the loop is not entered and the function
    ends without reaching a [return]. *)
Theorem tokenize_empty_input :
  fst (tokenize (Lexer_new "")) = FlowedOffEnd.
Proof. vm_compute. reflexivity. Qed.

(** C9. [tokenize] leaves the keyword table as the constructor built it,
    from any cursor position: the table after the call is the table of the
    constructor, holds fourteen entries, and maps exactly the fourteen
    spellings, each to [Keyword]. *)
Theorem keyword_table_unchanged (inp : string) (p : N) :
  let lx := set_position p (Lexer_new inp) in
  keywords (snd (tokenize lx)) = keywords (Lexer_new inp)
  /\ size (keywords (snd (tokenize lx))) = 14%nat
  /\ forall w ty,
       keywords (snd (tokenize lx)) !! w = Some ty
       <-> In w keyword_spellings /\ ty = TokenType.Keyword.
Proof.
  intros lx.
  assert (Hk : keywords (snd (tokenize lx)) = keywords (Lexer_new inp))
    by apply (tokenize_keywords lx).
  rewrite Hk. split; [reflexivity|]. split; [apply keywords_new_size|].
  intros w ty. rewrite keywords_new_lookup.
  destruct (is_keyword_spelling w) eqn:Hs.
  - apply is_keyword_spelling_In in Hs. split.
    + intros [= <-]. now split.
    + now intros [_ ->].
  - split; [discriminate|]. intros [Hi _].
    apply is_keyword_spelling_In in Hi. congruence.
Qed.

(** C10. Every token returned by [tokenize], from any state whose input is a
    string of representable length, has a text of at least one character. *)
Theorem token_text_nonempty (lx : Lexer) (tokens : list Token) (t : Token) :
  string_fits (input lx) ->
  fst (tokenize lx) = Returned tokens ->
  In t tokens ->
  (1 <= String.length (value t))%nat.
Proof.
  intros Hfit Hr Hin. apply tokenize_Returned in Hr as [Hlt He].
  inversion He as [Hw Ht | word lx1 Hw Ha Hg Ht | ty Hw Ha Hty Ht];
    subst tokens; simpl in Hin.
  - contradiction.
  - destruct Hin as [<-|[]]. simpl.
    destruct (getNextWord_spec lx)
      as (w & lx2 & Hg' & _ & _ & Hlo & _ & Hl & _);
      [split; [assumption | lia] | assumption | assumption |].
    rewrite Hg in Hg'. injection Hg' as -> _. rewrite Hl. lia.
  - destruct Hin as [<-|[]]. simpl. lia.
Qed.

Lemma token_text_nonempty_witness :
  string_fits (input (Lexer_new "x1 = 2"))
  /\ fst (tokenize (Lexer_new "x1 = 2"))
     = Returned [mkToken TokenType.Identifier "x1"]
  /\ In (mkToken TokenType.Identifier "x1")
        [mkToken TokenType.Identifier "x1"]
  /\ (1 <= String.length (value (mkToken TokenType.Identifier "x1")))%nat.
Proof.
  split; [vm_compute; reflexivity|].
  split; [vm_compute; reflexivity|].
  split; [left; reflexivity|].
  apply (token_text_nonempty (Lexer_new "x1 = 2")
           [mkToken TokenType.Identifier "x1"]
           (mkToken TokenType.Identifier "x1")).
  - vm_compute; reflexivity.
  - vm_compute; reflexivity.
  - left; reflexivity.
Defined.

(** * Further properties of the code *)

(** ** Strings *)

Lemma string_append_nil_l (s : string) : String.append "" s = s.
Proof. reflexivity. Qed.

Lemma string_append_cons (c : ascii) (a b : string) :
  String.append (String.String c a) b = String.String c (String.append a b).
Proof. reflexivity. Qed.

Lemma string_append_nil_r (s : string) : String.append s "" = s.
Proof.
  induction s as [|c s IH]; [reflexivity|].
  now rewrite string_append_cons, IH.
Qed.

Lemma string_append_assoc (a b c : string) :
  String.append (String.append a b) c = String.append a (String.append b c).
Proof.
  induction a as [|x a IH]; [reflexivity|].
  now rewrite !string_append_cons, IH.
Qed.

Lemma string_drop_nil (n : nat) : string_drop n "" = "".
Proof. now destruct n. Qed.

Lemma string_drop_past (s : string) :
  forall n, (String.length s <= n)%nat -> string_drop n s = "".
Proof.
  induction s as [|c s IH]; intros n Hn.
  - apply string_drop_nil.
  - destruct n as [|n]; simpl in *; [lia | apply IH; lia].
Qed.

Lemma string_drop_get (s : string) :
  forall n c,
    String.get n s = Some c ->
    string_drop n s = String.String c (string_drop (S n) s).
Proof.
  induction s as [|d s IH]; intros n c Hg.
  - destruct n; discriminate.
  - destruct n as [|n]; simpl in *.
    + injection Hg as ->. now destruct s.
    + now apply IH.
Qed.

Lemma string_get_lt (s : string) :
  forall n, (n < String.length s)%nat -> exists c, String.get n s = Some c.
Proof.
  induction s as [|d s IH]; intros n Hn; simpl in *; [lia|].
  destruct n as [|n]; [now exists d | apply IH; lia].
Qed.

Lemma string_drop_length (s : string) :
  forall n, String.length (string_drop n s) = (String.length s - n)%nat.
Proof.
  induction s as [|d s IH]; intros n.
  - now rewrite string_drop_nil.
  - destruct n as [|n]; simpl; [reflexivity | apply IH].
Qed.

Lemma string_drop_drop (s : string) :
  forall n m, string_drop m (string_drop n s) = string_drop (n + m) s.
Proof.
  induction s as [|d s IH]; intros n m.
  - now rewrite !string_drop_nil.
  - destruct n as [|n]; simpl; [reflexivity | apply IH].
Qed.

Lemma substring_drop (s : string) :
  forall n m, String.substring n m s = String.substring 0 m (string_drop n s).
Proof.
  induction s as [|d s IH]; intros n m.
  - rewrite string_drop_nil. now destruct n, m.
  - destruct n as [|n]; simpl; [reflexivity | apply IH].
Qed.

Section TakeWhile.

Variable ok : ascii -> bool.

Lemma take_while_prefix (s : string) :
  String.substring 0 (String.length (take_while ok s)) s = take_while ok s.
Proof.
  induction s as [|c s IH]; simpl; [reflexivity|].
  destruct (ok c); simpl; [now rewrite IH | reflexivity].
Qed.

Lemma take_while_length (s : string) :
  (String.length (take_while ok s) <= String.length s)%nat.
Proof.
  induction s as [|c s IH]; simpl; [lia|].
  destruct (ok c); simpl; lia.
Qed.

Lemma take_while_split (s : string) :
  s = String.append (take_while ok s)
        (string_drop (String.length (take_while ok s)) s).
Proof.
  induction s as [|c s IH]; simpl; [reflexivity|].
  destruct (ok c); simpl; [|reflexivity].
  now rewrite string_append_cons, <- IH.
Qed.

Lemma take_while_forall (s : string) :
  string_forall ok (take_while ok s) = true.
Proof.
  induction s as [|c s IH]; simpl; [reflexivity|].
  destruct (ok c) eqn:Hc; simpl; [now rewrite Hc | reflexivity].
Qed.

(** The run is the longest one: what follows it, if anything, starts with a
    character that does not pass. *)
Lemma take_while_maximal (s : string) :
  match string_drop (String.length (take_while ok s)) s with
  | String.String c _ => ok c = false
  | EmptyString => True
  end.
Proof.
  induction s as [|c s IH]; simpl; [exact I|].
  destruct (ok c) eqn:Hc; simpl; [exact IH | exact Hc].
Qed.

End TakeWhile.

Lemma strip_whitespace_app (a b : string) :
  strip_whitespace (String.append a b)
  = String.append (strip_whitespace a) (strip_whitespace b).
Proof.
  induction a as [|c a IH]; [reflexivity|].
  rewrite string_append_cons. simpl.
  destruct (isWhitespace c); [exact IH|].
  now rewrite string_append_cons, IH.
Qed.

Lemma strip_whitespace_id (s : string) :
  string_forall (fun c => negb (isWhitespace c)) s = true ->
  strip_whitespace s = s.
Proof.
  induction s as [|c s IH]; simpl; [reflexivity|].
  intros H. apply andb_prop in H as [Hc Hs].
  destruct (isWhitespace c); [discriminate|]. now rewrite IH.
Qed.

Lemma string_forall_impl (p q : ascii -> bool) (s : string) :
  (forall c, p c = true -> q c = true) ->
  string_forall p s = true -> string_forall q s = true.
Proof.
  intros Hpq. induction s as [|c s IH]; simpl; [reflexivity|].
  intros H. apply andb_prop in H as [Hc Hs].
  now rewrite (Hpq _ Hc), IH.
Qed.

(** ** Characters, continued *)

Lemma char_int_inj (c d : ascii) : char_int c = char_int d -> c = d.
Proof.
  unfold char_int. intros H.
  pose proof (N_ascii_bounded c). pose proof (N_ascii_bounded d).
  rewrite <- (ascii_N_embedding c), <- (ascii_N_embedding d). f_equal.
  destruct (Z.ltb_spec (Z.of_N (N_of_ascii c)) 128);
    destruct (Z.ltb_spec (Z.of_N (N_of_ascii d)) 128); lia.
Qed.

(** Comparing a [char] with a character literal is comparing characters. *)
Lemma char_eq_lit (c d : ascii) : char_eq c (lit d) = Ascii.eqb c d.
Proof.
  unfold char_eq, lit. destruct (Ascii.eqb_spec c d) as [->|Hne].
  - apply Z.eqb_refl.
  - apply Z.eqb_neq. intros H. apply Hne. now apply char_int_inj.
Qed.

(** Case analysis over the 256 values of a [char]. *)
Ltac each_char c :=
  destruct c as [[] [] [] [] [] [] [] []]; vm_compute; try reflexivity;
  try discriminate; try tauto.

Lemma isAlphaNumeric_not_whitespace (c : ascii) :
  isAlphaNumeric c = true -> isWhitespace c = false.
Proof. each_char c. Qed.

Lemma isNumberChar_not_whitespace (c : ascii) :
  isNumberChar c = true -> isWhitespace c = false.
Proof. each_char c. Qed.

(** ** The input from the cursor on *)

Arguments string_drop : simpl never.

Lemma set_position_same (lx : Lexer) : set_position (position lx) lx = lx.
Proof. now destruct lx. Qed.

Lemma advanced_0 (lx : Lexer) : advanced 0 lx = lx.
Proof.
  unfold advanced. simpl. rewrite N.add_0_r. apply set_position_same.
Qed.

Lemma remaining_inside (lx : Lexer) :
  position lx < string_length (input lx) ->
  remaining lx
  = String.String (string_at (input lx) (position lx))
      (string_drop (S (N.to_nat (position lx))) (input lx)).
Proof.
  unfold string_length, remaining, string_at. intros Hlt.
  destruct (string_get_lt (input lx) (N.to_nat (position lx))) as [c Hc];
    [lia|].
  rewrite Hc. now apply string_drop_get.
Qed.

Lemma remaining_outside (lx : Lexer) :
  string_length (input lx) <= position lx -> remaining lx = "".
Proof.
  unfold string_length, remaining. intros Hge.
  apply string_drop_past. lia.
Qed.

Lemma remaining_position_incr (lx : Lexer) :
  string_fits (input lx) ->
  position lx < string_length (input lx) ->
  remaining (position_incr lx)
  = string_drop (S (N.to_nat (position lx))) (input lx).
Proof.
  intros Hfit Hlt. unfold remaining, position_incr.
  cbn [position input set_position].
  rewrite (size_incr_small _ _ Hlt Hfit).
  now replace (N.to_nat (position lx + 1)) with (S (N.to_nat (position lx)))
    by lia.
Qed.

Lemma remaining_length (lx : Lexer) :
  position lx <= string_length (input lx) ->
  N.of_nat (String.length (remaining lx))
  = string_length (input lx) - position lx.
Proof.
  unfold remaining, string_length. intros Hle.
  rewrite string_drop_length. lia.
Qed.

Lemma remaining_advanced (n : nat) (lx : Lexer) :
  remaining (advanced n lx) = string_drop n (remaining lx).
Proof.
  unfold remaining, advanced. simpl. rewrite string_drop_drop.
  f_equal. lia.
Qed.

Lemma word_continues_remaining (lx : Lexer) :
  word_continues lx
  = match remaining lx with
    | String.String c _ => isAlphaNumeric c
    | EmptyString => false
    end.
Proof.
  unfold word_continues.
  destruct (N.ltb_spec (position lx) (string_length (input lx))) as [Hlt|Hge].
  - now rewrite (remaining_inside lx Hlt).
  - now rewrite (remaining_outside lx Hge).
Qed.

Lemma number_continues_remaining (lx : Lexer) :
  number_continues lx
  = match remaining lx with
    | String.String c _ => isNumberChar c
    | EmptyString => false
    end.
Proof.
  unfold number_continues.
  destruct (N.ltb_spec (position lx) (string_length (input lx))) as [Hlt|Hge].
  - now rewrite (remaining_inside lx Hlt).
  - now rewrite (remaining_outside lx Hge).
Qed.

(** ** The loops as longest runs *)

Lemma getNextWord_loop_run (fuel : nat) :
  forall lx,
    in_bounds lx ->
    string_length (input lx) - position lx <= N.of_nat fuel ->
    getNextWord_loop fuel lx
    = advanced (String.length (take_while isAlphaNumeric (remaining lx))) lx.
Proof.
  induction fuel as [|fuel IH]; intros lx [Hfit Hle] Hfuel; simpl.
  - rewrite remaining_outside by lia. simpl. now rewrite advanced_0.
  - rewrite word_continues_remaining.
    destruct (N.ltb_spec (position lx) (string_length (input lx)))
      as [Hlt|Hge].
    + rewrite (remaining_inside lx Hlt). simpl.
      destruct (isAlphaNumeric _); [|simpl; now rewrite advanced_0].
      destruct (position_incr_in_bounds lx Hfit Hlt) as [Hb Hp].
      rewrite IH; [|assumption | rewrite Hp; simpl; lia].
      rewrite (remaining_position_incr lx Hfit Hlt).
      unfold advanced. rewrite Hp. simpl. unfold set_position. simpl.
      f_equal. lia.
    + rewrite remaining_outside by lia. simpl. now rewrite advanced_0.
Qed.

Lemma getNextNumber_loop_run (fuel : nat) :
  forall isFloat lx,
    in_bounds lx ->
    string_length (input lx) - position lx <= N.of_nat fuel ->
    getNextNumber_loop fuel isFloat lx
    = (isFloat || string_has "." (take_while isNumberChar (remaining lx)),
       advanced (String.length (take_while isNumberChar (remaining lx))) lx).
Proof.
  induction fuel as [|fuel IH]; intros isFloat lx [Hfit Hle] Hfuel; simpl.
  - rewrite remaining_outside by lia. simpl.
    now rewrite advanced_0, orb_false_r.
  - rewrite number_continues_remaining.
    destruct (N.ltb_spec (position lx) (string_length (input lx)))
      as [Hlt|Hge].
    + rewrite (remaining_inside lx Hlt). simpl.
      destruct (isNumberChar _);
        [|simpl; now rewrite advanced_0, orb_false_r].
      destruct (position_incr_in_bounds lx Hfit Hlt) as [Hb Hp].
      rewrite IH; [|assumption | rewrite Hp; simpl; lia].
      rewrite (remaining_position_incr lx Hfit Hlt).
      rewrite char_eq_lit. f_equal.
      * simpl. now destruct (Ascii.eqb _ "."), isFloat.
      * unfold advanced. rewrite Hp. simpl. unfold set_position. simpl.
        f_equal. lia.
    + rewrite remaining_outside by lia. simpl.
      now rewrite advanced_0, orb_false_r.
Qed.

Lemma run_fits (ok : ascii -> bool) (lx : Lexer) :
  in_bounds lx ->
  position lx + N.of_nat (String.length (take_while ok (remaining lx)))
  <= string_length (input lx).
Proof.
  intros [Hfit Hle].
  pose proof (take_while_length ok (remaining lx)) as Hk.
  pose proof (remaining_length lx Hle). lia.
Qed.

(** The text between the old cursor and the cursor after a run. *)
Lemma substr_run (ok : ascii -> bool) (lx : Lexer) :
  in_bounds lx ->
  let run := take_while ok (remaining lx) in
  substr (input lx) (position lx)
    (size_sub (position (advanced (String.length run) lx)) (position lx))
  = Some run.
Proof.
  intros Hb run. pose proof Hb as [Hfit Hle].
  pose proof (run_fits ok lx Hb) as Hk. fold run in Hk.
  unfold substr, advanced. simpl.
  replace (string_length (input lx) <? position lx) with false
    by (symmetry; apply N.ltb_ge; lia).
  unfold string_fits in Hfit.
  rewrite size_sub_small by lia.
  replace (N.to_nat (position lx + N.of_nat (String.length run)
                     - position lx))
    with (String.length run) by lia.
  rewrite substring_drop. fold (remaining lx).
  f_equal. apply take_while_prefix.
Qed.

(** ** The sub-scanners as functions of the remaining input *)

Lemma getNextWord_run (lx : Lexer) :
  in_bounds lx ->
  getNextWord lx
  = (Some (take_while isAlphaNumeric (remaining lx)),
     advanced (String.length (take_while isAlphaNumeric (remaining lx))) lx).
Proof.
  intros Hb. unfold getNextWord.
  rewrite getNextWord_loop_run by (try assumption; unfold string_length; lia).
  f_equal.
  apply (substr_run isAlphaNumeric lx Hb).
Qed.

Lemma getNextNumber_run (lx : Lexer) :
  in_bounds lx ->
  getNextNumber lx
  = (Some (take_while isNumberChar (remaining lx)),
     advanced (String.length (take_while isNumberChar (remaining lx))) lx).
Proof.
  intros Hb. unfold getNextNumber.
  rewrite getNextNumber_loop_run
    by (try assumption; unfold string_length; lia).
  f_equal.
  apply (substr_run isNumberChar lx Hb).
Qed.

(** Past the end of the input neither loop runs, and [substr] throws. *)
Lemma getNextWord_past_end (lx : Lexer) :
  string_length (input lx) < position lx -> getNextWord lx = (None, lx).
Proof.
  intros Hgt. unfold getNextWord.
  assert (Hl : forall fuel, getNextWord_loop fuel lx = lx).
  { intros [|fuel]; simpl; [reflexivity|].
    rewrite word_continues_remaining, remaining_outside by lia.
    reflexivity. }
  rewrite Hl. unfold substr.
  now rewrite (proj2 (N.ltb_lt _ _) Hgt).
Qed.

Lemma getNextNumber_past_end (lx : Lexer) :
  string_length (input lx) < position lx -> getNextNumber lx = (None, lx).
Proof.
  intros Hgt. unfold getNextNumber.
  assert (Hl : forall fuel b, getNextNumber_loop fuel b lx = (b, lx)).
  { intros [|fuel] b; simpl; [reflexivity|].
    rewrite number_continues_remaining, remaining_outside by lia.
    reflexivity. }
  rewrite Hl. unfold substr.
  now rewrite (proj2 (N.ltb_lt _ _) Hgt).
Qed.

(** X1. With the cursor inside the input or at its end, [getNextWord]
    returns normally the longest prefix of the remaining input made of
    characters that pass [isAlphaNumeric], and moves the cursor past it,
    leaving input and keyword table as they were. *)
Theorem getNextWord_longest_run (lx : Lexer) :
  in_bounds lx ->
  let run := take_while isAlphaNumeric (remaining lx) in
  getNextWord lx = (Some run, advanced (String.length run) lx).
Proof. intros Hb run. now apply getNextWord_run. Qed.

Lemma getNextWord_longest_run_witness :
  in_bounds (set_position 4 (Lexer_new "int main() {"))
  /\ getNextWord (set_position 4 (Lexer_new "int main() {"))
     = (Some "main", set_position 8 (Lexer_new "int main() {")).
Proof.
  assert (Hb : in_bounds (set_position 4 (Lexer_new "int main() {")))
    by (split; vm_compute; [reflexivity | discriminate]).
  split; [exact Hb|].
  exact (getNextWord_longest_run _ Hb).
Defined.

(** X2. With the cursor inside the input or at its end, [getNextNumber]
    returns normally the longest prefix of the remaining input made of
    digits and ['.'], in any arrangement, and moves the cursor past it. *)
Theorem getNextNumber_longest_run (lx : Lexer) :
  in_bounds lx ->
  let run := take_while isNumberChar (remaining lx) in
  getNextNumber lx = (Some run, advanced (String.length run) lx).
Proof. intros Hb run. now apply getNextNumber_run. Qed.

Lemma getNextNumber_longest_run_witness :
  in_bounds (set_position 2 (Lexer_new "x=1.2.3;"))
  /\ getNextNumber (set_position 2 (Lexer_new "x=1.2.3;"))
     = (Some "1.2.3", set_position 7 (Lexer_new "x=1.2.3;")).
Proof.
  assert (Hb : in_bounds (set_position 2 (Lexer_new "x=1.2.3;")))
    by (split; vm_compute; [reflexivity | discriminate]).
  split; [exact Hb|].
  exact (getNextNumber_longest_run _ Hb).
Defined.

(** X3. The local [isFloat] that the loop of [getNextNumber] computes, and
    that the function drops, is true exactly when the returned text holds a
    ['.']: it is the test [tokenize] makes again on line 171. *)
Theorem getNextNumber_isFloat (lx : Lexer) (number : string) (lx' : Lexer) :
  in_bounds lx ->
  getNextNumber lx = (Some number, lx') ->
  fst (getNextNumber_loop (String.length (input lx)) false lx)
  = string_has "." number.
Proof.
  intros Hb Hg. rewrite (getNextNumber_run lx Hb) in Hg.
  injection Hg as <- _.
  rewrite getNextNumber_loop_run
    by (try assumption; unfold string_length; lia).
  reflexivity.
Qed.

Lemma getNextNumber_isFloat_witness :
  in_bounds (Lexer_new "3.14 + x1")
  /\ getNextNumber (Lexer_new "3.14 + x1")
     = (Some "3.14", set_position 4 (Lexer_new "3.14 + x1"))
  /\ fst (getNextNumber_loop (String.length (input (Lexer_new "3.14 + x1")))
            false (Lexer_new "3.14 + x1"))
     = string_has "." "3.14".
Proof.
  assert (Hb : in_bounds (Lexer_new "3.14 + x1"))
    by (split; vm_compute; [reflexivity | discriminate]).
  assert (Hg : getNextNumber (Lexer_new "3.14 + x1")
               = (Some "3.14", set_position 4 (Lexer_new "3.14 + x1")))
    by (vm_compute; reflexivity).
  split; [exact Hb|]. split; [exact Hg|].
  exact (getNextNumber_isFloat _ _ _ Hb Hg).
Defined.

(** X4. The one exception in the code: [getNextWord] and [getNextNumber]
    throw [std::out_of_range], from [substr], exactly when the cursor is
    past the end of the input; the cursor is then left where it was. *)
Theorem sub_scanners_throw_past_end (lx : Lexer) :
  string_fits (input lx) ->
  (fst (getNextWord lx) = None <-> string_length (input lx) < position lx)
  /\ (fst (getNextNumber lx) = None
      <-> string_length (input lx) < position lx)
  /\ (string_length (input lx) < position lx ->
      snd (getNextWord lx) = lx /\ snd (getNextNumber lx) = lx).
Proof.
  intros Hfit.
  destruct (N.lt_ge_cases (string_length (input lx)) (position lx))
    as [Hgt|Hle].
  - rewrite (getNextWord_past_end lx Hgt), (getNextNumber_past_end lx Hgt).
    simpl. tauto.
  - assert (Hb : in_bounds lx) by (split; assumption).
    rewrite (getNextWord_run lx Hb), (getNextNumber_run lx Hb). simpl.
    repeat split; try discriminate; intros; lia.
Qed.

Lemma sub_scanners_throw_past_end_witness :
  string_fits (input (set_position 3 (Lexer_new "ab")))
  /\ fst (getNextWord (set_position 3 (Lexer_new "ab"))) = None
  /\ fst (getNextNumber (set_position 3 (Lexer_new "ab"))) = None.
Proof.
  assert (Hfit : string_fits (input (set_position 3 (Lexer_new "ab"))))
    by (vm_compute; reflexivity).
  split; [exact Hfit|].
  destruct (sub_scanners_throw_past_end _ Hfit) as (Hw & Hn & _).
  split; [apply Hw | apply Hn]; vm_compute; reflexivity.
Defined.

(** X5. The block of lines 168-179, entered with the cursor inside the
    input or at its end: for a run of digits and ['.'] that holds a ['.'] it
    appends one [Float] token with the run as text and leaves the cursor
    after the run; for any other run it appends nothing and moves the cursor
    one character further than the run. It never makes an [Integer]
    token. *)
Theorem number_branch_run (tokens : list Token) (lx : Lexer) :
  in_bounds lx ->
  let run := take_while isNumberChar (remaining lx) in
  number_branch tokens lx
  = if string_has "." run
    then (Some (tokens ++ [mkToken TokenType.Float run])%list,
          advanced (String.length run) lx)
    else (Some tokens, position_incr (advanced (String.length run) lx)).
Proof.
  intros Hb run. unfold number_branch.
  rewrite (getNextNumber_run lx Hb). fold run.
  now destruct (string_has "." run).
Qed.

Lemma number_branch_run_witness :
  in_bounds (Lexer_new "42")
  /\ number_branch [] (Lexer_new "42")
     = (Some [], set_position 3 (Lexer_new "42")).
Proof.
  assert (Hb : in_bounds (Lexer_new "42"))
    by (split; vm_compute; [reflexivity | discriminate]).
  split; [exact Hb|].
  exact (number_branch_run [] _ Hb).
Defined.

(** ** One call of [tokenize], branch by branch *)

Lemma isAlpha_not_whitespace (c : ascii) :
  isAlpha c = true -> isWhitespace c = false.
Proof.
  intros H. now apply isAlphaNumeric_not_whitespace, isAlpha_isAlphaNumeric.
Qed.

Lemma tokenize_word_run (lx : Lexer) :
  in_bounds lx ->
  position lx < string_length (input lx) ->
  isAlpha (string_at (input lx) (position lx)) = true ->
  tokenize lx
  = (Returned
       [mkToken
          (match keywords lx !! take_while isAlphaNumeric (remaining lx) with
           | Some v => v
           | None => TokenType.Identifier
           end)
          (take_while isAlphaNumeric (remaining lx))],
     advanced (String.length (take_while isAlphaNumeric (remaining lx))) lx).
Proof.
  intros Hb Hlt Ha. unfold tokenize, dispatch.
  rewrite (proj2 (N.ltb_lt _ _) Hlt), (isAlpha_not_whitespace _ Ha), Ha.
  rewrite (getNextWord_run lx Hb).
  set (run := take_while isAlphaNumeric (remaining lx)).
  change (keywords (advanced (String.length run) lx)) with (keywords lx).
  destruct (map_contains run (keywords lx)) eqn:Hf.
  - destruct (map_subscript_found _ _ Hf) as (v & -> & ->). reflexivity.
  - now rewrite (map_contains_false _ _ Hf).
Qed.

(** The three one-character branches. *)
Lemma dispatch_operator (c : ascii) (tokens : list Token) (lx : Lexer) :
  In c ["+"; "-"; "*"; "/"; "%"]%char ->
  dispatch c tokens lx
  = (Some (push_back tokens (mkToken TokenType.Operator (string1 c))),
     position_incr lx).
Proof.
  intros Hin. simpl in Hin.
  destruct Hin as [<-|[<-|[<-|[<-|[<-|[]]]]]]; reflexivity.
Qed.

Lemma dispatch_delimiter (c : ascii) (tokens : list Token) (lx : Lexer) :
  In c ["("; ")"; ":"; "["; "]"]%char ->
  dispatch c tokens lx
  = (Some (push_back tokens (mkToken TokenType.Delimiter (string1 c))),
     position_incr lx).
Proof.
  intros Hin. simpl in Hin.
  destruct Hin as [<-|[<-|[<-|[<-|[<-|[]]]]]]; reflexivity.
Qed.

Lemma dispatch_unknown (c : ascii) (tokens : list Token) (lx : Lexer) :
  isWhitespace c = false ->
  isAlpha c = false ->
  ~ In c ["+"; "-"; "*"; "/"; "%"; "("; ")"; ":"; "["; "]"]%char ->
  dispatch c tokens lx
  = (Some (push_back tokens (mkToken TokenType.Unknown (string1 c))),
     position_incr lx).
Proof.
  intros Hw Ha Hin. unfold dispatch. rewrite Hw, Ha.
  destruct (isDigit c) eqn:Hd.
  { apply isDigit_isAlpha in Hd. congruence. }
  rewrite !char_eq_multichar by (vm_compute; discriminate).
  rewrite !char_eq_lit.
  repeat match goal with
         | |- context [Ascii.eqb c ?d] =>
             destruct (Ascii.eqb_spec c d) as [->|_];
             [exfalso; apply Hin; simpl; tauto|]
         end.
  reflexivity.
Qed.

(** On a character that is neither whitespace nor the start of a word the
    call returns one token made of that character and moves on by one. *)
Lemma tokenize_single (lx : Lexer) :
  position lx < string_length (input lx) ->
  isWhitespace (string_at (input lx) (position lx)) = false ->
  isAlpha (string_at (input lx) (position lx)) = false ->
  exists ty,
    In ty [TokenType.Operator; TokenType.Delimiter; TokenType.Unknown]
    /\ tokenize lx
       = (Returned [mkToken ty (string1 (string_at (input lx) (position lx)))],
          position_incr lx).
Proof.
  intros Hlt Hw Ha. unfold tokenize.
  rewrite (proj2 (N.ltb_lt _ _) Hlt).
  set (c := string_at (input lx) (position lx)) in *.
  destruct (in_dec ascii_dec c ["+"; "-"; "*"; "/"; "%"]%char) as [Ho|Ho].
  { rewrite (dispatch_operator c [] lx Ho).
    exists TokenType.Operator. simpl. tauto. }
  destruct (in_dec ascii_dec c ["("; ")"; ":"; "["; "]"]%char) as [Hd|Hd].
  { rewrite (dispatch_delimiter c [] lx Hd).
    exists TokenType.Delimiter. simpl. tauto. }
  rewrite (dispatch_unknown c [] lx Hw Ha).
  - exists TokenType.Unknown. simpl. tauto.
  - intros Hin. simpl in Hin, Ho, Hd. tauto.
Qed.

Lemma tokenize_cases (lx : Lexer) :
  in_bounds lx ->
  position lx < string_length (input lx) ->
  let c := string_at (input lx) (position lx) in
  let run := take_while isAlphaNumeric (remaining lx) in
  (isWhitespace c = true
   /\ tokenize lx = (Returned [], position_incr lx))
  \/ (isAlpha c = true
      /\ tokenize lx
         = (Returned [mkToken (match keywords lx !! run with
                               | Some v => v
                               | None => TokenType.Identifier
                               end) run],
            advanced (String.length run) lx))
  \/ (isWhitespace c = false
      /\ isAlpha c = false
      /\ exists ty,
           In ty [TokenType.Operator; TokenType.Delimiter; TokenType.Unknown]
           /\ tokenize lx
              = (Returned [mkToken ty (string1 c)], position_incr lx)).
Proof.
  intros Hb Hlt c run.
  destruct (isWhitespace c) eqn:Hw.
  { left. split; [reflexivity|]. now apply tokenize_whitespace. }
  destruct (isAlpha c) eqn:Ha.
  { right; left. split; [reflexivity|]. now apply tokenize_word_run. }
  right; right. repeat split. now apply tokenize_single.
Qed.

Lemma remaining_step (lx : Lexer) :
  string_fits (input lx) ->
  position lx < string_length (input lx) ->
  remaining lx
  = String.String (string_at (input lx) (position lx))
      (remaining (position_incr lx)).
Proof.
  intros Hfit Hlt.
  rewrite (remaining_position_incr lx Hfit Hlt).
  now apply remaining_inside.
Qed.

Lemma word_run_starts (lx : Lexer) :
  position lx < string_length (input lx) ->
  isAlpha (string_at (input lx) (position lx)) = true ->
  exists r,
    take_while isAlphaNumeric (remaining lx)
    = String.String (string_at (input lx) (position lx)) r.
Proof.
  intros Hlt Ha. rewrite (remaining_inside lx Hlt). simpl.
  rewrite (isAlpha_isAlphaNumeric _ Ha). eauto.
Qed.

Lemma digit_led_not_keyword (c : ascii) (r : string) :
  isDigit c = true -> is_keyword_spelling (String.String c r) = false.
Proof. each_char c. Qed.

(** X6. On a character that passes [isAlpha], a call of [tokenize] over the
    table of the constructor returns exactly one token: its text is the
    longest run of [isAlphaNumeric] characters from the cursor on, its kind
    is [Keyword] when that whole run is one of the fourteen spellings and
    [Identifier] otherwise, and the cursor is left after the run. *)
Theorem tokenize_word (inp : string) (p : N) :
  string_fits inp ->
  p < string_length inp ->
  isAlpha (string_at inp p) = true ->
  let lx := set_position p (Lexer_new inp) in
  let run := take_while isAlphaNumeric (remaining lx) in
  tokenize lx
  = (Returned [mkToken (if is_keyword_spelling run
                        then TokenType.Keyword
                        else TokenType.Identifier) run],
     advanced (String.length run) lx).
Proof.
  intros Hfit Hlt Ha lx run.
  assert (Hb : in_bounds lx) by (split; [exact Hfit | simpl; lia]).
  rewrite (tokenize_word_run lx Hb Hlt Ha). fold run.
  change (keywords lx) with (keywords (Lexer_new inp)).
  rewrite keywords_new_lookup.
  now destruct (is_keyword_spelling run).
Qed.

Lemma tokenize_word_witness :
  string_fits "if returnx"
  /\ 3 < string_length "if returnx"
  /\ isAlpha (string_at "if returnx" 3) = true
  /\ tokenize (set_position 3 (Lexer_new "if returnx"))
     = (Returned [mkToken TokenType.Identifier "returnx"],
        set_position 10 (Lexer_new "if returnx")).
Proof.
  assert (Hfit : string_fits "if returnx") by (vm_compute; reflexivity).
  assert (Hlt : 3 < string_length "if returnx") by (vm_compute; reflexivity).
  assert (Ha : isAlpha (string_at "if returnx" 3) = true)
    by (vm_compute; reflexivity).
  repeat (split; [assumption|]).
  exact (tokenize_word "if returnx" 3 Hfit Hlt Ha).
Defined.

(** X7. On a digit, a call of [tokenize] over the table of the constructor
    returns one [Identifier] token whose text is the longest run of letters
    and digits from the cursor on: a digit never starts a number token. *)
Theorem tokenize_digit (inp : string) (p : N) :
  string_fits inp ->
  p < string_length inp ->
  isDigit (string_at inp p) = true ->
  let lx := set_position p (Lexer_new inp) in
  let run := take_while isAlphaNumeric (remaining lx) in
  tokenize lx
  = (Returned [mkToken TokenType.Identifier run],
     advanced (String.length run) lx).
Proof.
  intros Hfit Hlt Hd lx run.
  assert (Hb : in_bounds lx) by (split; [exact Hfit | simpl; lia]).
  pose proof (isDigit_isAlpha _ Hd) as Ha.
  rewrite (tokenize_word_run lx Hb Hlt Ha). fold run.
  change (keywords lx) with (keywords (Lexer_new inp)).
  rewrite keywords_new_lookup.
  destruct (word_run_starts lx Hlt Ha) as [r Hr]. fold run in Hr.
  rewrite Hr at 1.
  change (string_at (input lx) (position lx)) with (string_at inp p).
  now rewrite (digit_led_not_keyword _ r Hd).
Qed.

Lemma tokenize_digit_witness :
  string_fits "x = 12ab.5"
  /\ 4 < string_length "x = 12ab.5"
  /\ isDigit (string_at "x = 12ab.5" 4) = true
  /\ tokenize (set_position 4 (Lexer_new "x = 12ab.5"))
     = (Returned [mkToken TokenType.Identifier "12ab"],
        set_position 8 (Lexer_new "x = 12ab.5")).
Proof.
  assert (Hfit : string_fits "x = 12ab.5") by (vm_compute; reflexivity).
  assert (Hlt : 4 < string_length "x = 12ab.5") by (vm_compute; reflexivity).
  assert (Hd : isDigit (string_at "x = 12ab.5" 4) = true)
    by (vm_compute; reflexivity).
  repeat (split; [assumption|]).
  exact (tokenize_digit "x = 12ab.5" 4 Hfit Hlt Hd).
Defined.

(** X8. On one of [+ - * / %] a call of [tokenize] returns one [Operator]
    token holding that character and moves the cursor by one; two operator
    characters in a row are never joined. *)
Theorem tokenize_operator (lx : Lexer) :
  position lx < string_length (input lx) ->
  In (string_at (input lx) (position lx)) ["+"; "-"; "*"; "/"; "%"]%char ->
  tokenize lx
  = (Returned [mkToken TokenType.Operator
                 (string1 (string_at (input lx) (position lx)))],
     position_incr lx).
Proof.
  intros Hlt Hin. unfold tokenize.
  rewrite (proj2 (N.ltb_lt _ _) Hlt).
  now rewrite (dispatch_operator _ [] lx Hin).
Qed.

Lemma tokenize_operator_witness :
  position (set_position 1 (Lexer_new "a//b"))
  < string_length (input (set_position 1 (Lexer_new "a//b")))
  /\ In "/"%char ["+"; "-"; "*"; "/"; "%"]%char
  /\ tokenize (set_position 1 (Lexer_new "a//b"))
     = (Returned [mkToken TokenType.Operator "/"],
        set_position 2 (Lexer_new "a//b")).
Proof.
  assert (Hlt : position (set_position 1 (Lexer_new "a//b"))
                < string_length (input (set_position 1 (Lexer_new "a//b"))))
    by (vm_compute; reflexivity).
  assert (Hin : In "/"%char ["+"; "-"; "*"; "/"; "%"]%char)
    by (simpl; tauto).
  repeat (split; [assumption|]).
  exact (tokenize_operator (set_position 1 (Lexer_new "a//b")) Hlt Hin).
Defined.

(** X9. On one of [( ) : [ ]] a call of [tokenize] returns one [Delimiter]
    token holding that character and moves the cursor by one; ["::"] is
    never one token. *)
Theorem tokenize_delimiter (lx : Lexer) :
  position lx < string_length (input lx) ->
  In (string_at (input lx) (position lx)) ["("; ")"; ":"; "["; "]"]%char ->
  tokenize lx
  = (Returned [mkToken TokenType.Delimiter
                 (string1 (string_at (input lx) (position lx)))],
     position_incr lx).
Proof.
  intros Hlt Hin. unfold tokenize.
  rewrite (proj2 (N.ltb_lt _ _) Hlt).
  now rewrite (dispatch_delimiter _ [] lx Hin).
Qed.

Lemma tokenize_delimiter_witness :
  position (set_position 1 (Lexer_new "a::b"))
  < string_length (input (set_position 1 (Lexer_new "a::b")))
  /\ In ":"%char ["("; ")"; ":"; "["; "]"]%char
  /\ tokenize (set_position 1 (Lexer_new "a::b"))
     = (Returned [mkToken TokenType.Delimiter ":"],
        set_position 2 (Lexer_new "a::b")).
Proof.
  assert (Hlt : position (set_position 1 (Lexer_new "a::b"))
                < string_length (input (set_position 1 (Lexer_new "a::b"))))
    by (vm_compute; reflexivity).
  assert (Hin : In ":"%char ["("; ")"; ":"; "["; "]"]%char)
    by (simpl; tauto).
  repeat (split; [assumption|]).
  exact (tokenize_delimiter (set_position 1 (Lexer_new "a::b")) Hlt Hin).
Defined.

(** X10. On a character that is not whitespace, passes no [isAlpha] and is
    none of the ten operator and delimiter characters, a call of [tokenize]
    returns one [Unknown] token holding that character and moves the cursor
    by one. *)
Theorem tokenize_fallback (lx : Lexer) :
  let c := string_at (input lx) (position lx) in
  position lx < string_length (input lx) ->
  isWhitespace c = false ->
  isAlpha c = false ->
  ~ In c ["+"; "-"; "*"; "/"; "%"; "("; ")"; ":"; "["; "]"]%char ->
  tokenize lx
  = (Returned [mkToken TokenType.Unknown (string1 c)], position_incr lx).
Proof.
  intros c Hlt Hw Ha Hin. unfold tokenize.
  rewrite (proj2 (N.ltb_lt _ _) Hlt). fold c.
  now rewrite (dispatch_unknown c [] lx Hw Ha Hin).
Qed.

Lemma tokenize_fallback_witness :
  position (set_position 4 (Lexer_new "x = {"))
  < string_length (input (set_position 4 (Lexer_new "x = {")))
  /\ isWhitespace "{" = false
  /\ isAlpha "{" = false
  /\ ~ In "{"%char ["+"; "-"; "*"; "/"; "%"; "("; ")"; ":"; "["; "]"]%char
  /\ tokenize (set_position 4 (Lexer_new "x = {"))
     = (Returned [mkToken TokenType.Unknown "{"],
        set_position 5 (Lexer_new "x = {")).
Proof.
  assert (Hlt : position (set_position 4 (Lexer_new "x = {"))
                < string_length (input (set_position 4 (Lexer_new "x = {"))))
    by (vm_compute; reflexivity).
  assert (Hw : isWhitespace "{" = false) by (vm_compute; reflexivity).
  assert (Ha : isAlpha "{" = false) by (vm_compute; reflexivity).
  assert (Hin : ~ In "{"%char
                    ["+"; "-"; "*"; "/"; "%"; "("; ")"; ":"; "["; "]"]%char)
    by (simpl; intuition discriminate).
  repeat (split; [assumption|]).
  exact (tokenize_fallback (set_position 4 (Lexer_new "x = {"))
           Hlt Hw Ha Hin).
Defined.

Lemma non_ascii_class (c : ascii) :
  128 <= N_of_ascii c ->
  isWhitespace c = false
  /\ isAlpha c = false
  /\ ~ In c ["+"; "-"; "*"; "/"; "%"; "("; ")"; ":"; "["; "]"]%char.
Proof.
  intros H.
  destruct c as [[] [] [] [] [] [] [] []]; vm_compute in H;
    try (exfalso; now apply H);
    (split; [reflexivity | split; [reflexivity|]]);
    simpl; intuition discriminate.
Qed.

(** X11. A byte outside ASCII (128 to 255, as in UTF-8 text) belongs to no
    class: a call of [tokenize] on it returns one [Unknown] token holding
    that single byte. *)
Theorem tokenize_non_ascii (lx : Lexer) :
  position lx < string_length (input lx) ->
  128 <= N_of_ascii (string_at (input lx) (position lx)) ->
  tokenize lx
  = (Returned [mkToken TokenType.Unknown
                 (string1 (string_at (input lx) (position lx)))],
     position_incr lx).
Proof.
  intros Hlt Hc. destruct (non_ascii_class _ Hc) as (Hw & Ha & Hin).
  unfold tokenize. rewrite (proj2 (N.ltb_lt _ _) Hlt).
  now rewrite (dispatch_unknown _ [] lx Hw Ha Hin).
Qed.

Lemma tokenize_non_ascii_witness :
  position (Lexer_new (String.String "233"%char "t"))
  < string_length (input (Lexer_new (String.String "233"%char "t")))
  /\ 128 <= N_of_ascii "233"
  /\ tokenize (Lexer_new (String.String "233"%char "t"))
     = (Returned [mkToken TokenType.Unknown (string1 "233")],
        set_position 1 (Lexer_new (String.String "233"%char "t"))).
Proof.
  assert (Hlt : position (Lexer_new (String.String "233"%char "t"))
                < string_length
                    (input (Lexer_new (String.String "233"%char "t"))))
    by (vm_compute; reflexivity).
  assert (Hc : 128 <= N_of_ascii "233") by (vm_compute; discriminate).
  repeat (split; [assumption|]).
  exact (tokenize_non_ascii (Lexer_new (String.String "233"%char "t"))
           Hlt Hc).
Defined.

(** ** One call of [tokenize], as a whole *)



(** X13. A call of [tokenize] with the cursor inside the input leaves the
    input text and the keyword table as they were and moves the cursor
    strictly forward, never beyond the end of the input. *)
Theorem tokenize_advances (lx : Lexer) :
  string_fits (input lx) ->
  position lx < string_length (input lx) ->
  input (snd (tokenize lx)) = input lx
  /\ keywords (snd (tokenize lx)) = keywords lx
  /\ position lx < position (snd (tokenize lx))
  /\ position (snd (tokenize lx)) <= string_length (input lx).
Proof.
  intros Hfit Hlt.
  destruct (tokenize_progress lx) as (tokens & _ & Hi & Hlo & Hhi);
    [split; [assumption | lia] | assumption |].
  repeat split; try assumption. apply tokenize_keywords.
Qed.

Lemma tokenize_advances_witness :
  string_fits (input (Lexer_new "while (x)"))
  /\ position (Lexer_new "while (x)")
     < string_length (input (Lexer_new "while (x)"))
  /\ position (Lexer_new "while (x)")
     < position (snd (tokenize (Lexer_new "while (x)")))
  /\ position (snd (tokenize (Lexer_new "while (x)")))
     <= string_length (input (Lexer_new "while (x)")).
Proof.
  assert (Hfit : string_fits (input (Lexer_new "while (x)")))
    by (vm_compute; reflexivity).
  assert (Hlt : position (Lexer_new "while (x)")
                < string_length (input (Lexer_new "while (x)")))
    by (vm_compute; reflexivity).
  split; [exact Hfit|]. split; [exact Hlt|].
  exact (proj2 (proj2 (tokenize_advances _ Hfit Hlt))).
Defined.

(** X14. A call of [tokenize] never returns more than one token, whatever
    the input and the cursor: the [return] of line 201 ends the call after
    one pass through the if-chain. *)
Theorem tokenize_at_most_one_token (lx : Lexer) (tokens : list Token) :
  fst (tokenize lx) = Returned tokens -> (length tokens <= 1)%nat.
Proof.
  intros Hr. apply tokenize_Returned in Hr as [_ He].
  destruct He; simpl; lia.
Qed.

Lemma tokenize_at_most_one_token_witness :
  fst (tokenize (Lexer_new "int main() { return 0; }"))
  = Returned [mkToken TokenType.Keyword "int"]
  /\ (length [mkToken TokenType.Keyword "int"] <= 1)%nat.
Proof.
  assert (Hr : fst (tokenize (Lexer_new "int main() { return 0; }"))
               = Returned [mkToken TokenType.Keyword "int"])
    by (vm_compute; reflexivity).
  split; [exact Hr|].
  exact (tokenize_at_most_one_token _ _ Hr).
Defined.

(** X15. What a call consumes is what it returns: the remaining input
    before the call, without its whitespace, is the text of the returned
    tokens followed by the remaining input after the call, without its
    whitespace. No character other than whitespace is dropped or made up
    between the old cursor and the new one. *)
Theorem tokenize_consumed_text (lx : Lexer) (tokens : list Token) :
  string_fits (input lx) ->
  fst (tokenize lx) = Returned tokens ->
  strip_whitespace (remaining lx)
  = String.append (token_texts tokens)
      (strip_whitespace (remaining (snd (tokenize lx)))).
Proof.
  intros Hfit Hr.
  pose proof (tokenize_Returned _ _ Hr) as [Hlt _].
  assert (Hb : in_bounds lx) by (split; [assumption | lia]).
  destruct (tokenize_cases lx Hb Hlt)
    as [[Hw Ht] | [[Ha Ht] | (Hw & Ha & ty & _ & Ht)]];
    rewrite Ht in Hr |- *; simpl in Hr; injection Hr as <-;
    cbn [snd token_texts map fold_right value].
  - rewrite (remaining_step lx Hfit Hlt). simpl. now rewrite Hw.
  - rewrite string_append_nil_r, remaining_advanced.
    rewrite (take_while_split isAlphaNumeric (remaining lx)) at 1.
    rewrite strip_whitespace_app. f_equal.
    apply strip_whitespace_id.
    apply (string_forall_impl isAlphaNumeric); [|apply take_while_forall].
    intros c Hc. now rewrite (isAlphaNumeric_not_whitespace c Hc).
  - rewrite (remaining_step lx Hfit Hlt). simpl. now rewrite Hw.
Qed.

Lemma tokenize_consumed_text_witness :
  string_fits (input (set_position 3 (Lexer_new "a  b1 c")))
  /\ fst (tokenize (set_position 3 (Lexer_new "a  b1 c")))
     = Returned [mkToken TokenType.Identifier "b1"]
  /\ strip_whitespace "b1 c" = String.append "b1" (strip_whitespace " c").
Proof.
  assert (Hfit : string_fits (input (set_position 3 (Lexer_new "a  b1 c"))))
    by (vm_compute; reflexivity).
  assert (Hr : fst (tokenize (set_position 3 (Lexer_new "a  b1 c")))
               = Returned [mkToken TokenType.Identifier "b1"])
    by (vm_compute; reflexivity).
  repeat (split; [assumption|]).
  exact (tokenize_consumed_text _ _ Hfit Hr).
Defined.

(** X16. Over the table of the constructor a call of [tokenize] only makes
    [Keyword], [Identifier], [Operator], [Delimiter] and [Unknown] tokens:
    no input gives a [String], an [Integer] or a [Float] token. *)
Theorem tokenize_kinds (inp : string) (p : N)
    (tokens : list Token) (t : Token) :
  fst (tokenize (set_position p (Lexer_new inp))) = Returned tokens ->
  In t tokens ->
  In (type t)
     [TokenType.Keyword; TokenType.Identifier; TokenType.Operator;
      TokenType.Delimiter; TokenType.Unknown].
Proof.
  intros Hr Hin. apply tokenize_Returned in Hr as [_ He].
  destruct (emitted_by_new_table inp (set_position p (Lexer_new inp))
              _ _ _ eq_refl He Hin)
    as [[_ ->] | (_ & _ & Hty)].
  - destruct (is_keyword_spelling (value t)); simpl; tauto.
  - simpl in Hty |- *. tauto.
Qed.

Lemma tokenize_kinds_witness :
  fst (tokenize (set_position 4 (Lexer_new "x = 1.5")))
  = Returned [mkToken TokenType.Identifier "1"]
  /\ In (mkToken TokenType.Identifier "1")
        [mkToken TokenType.Identifier "1"]
  /\ In (type (mkToken TokenType.Identifier "1"))
        [TokenType.Keyword; TokenType.Identifier; TokenType.Operator;
         TokenType.Delimiter; TokenType.Unknown].
Proof.
  assert (Hr : fst (tokenize (set_position 4 (Lexer_new "x = 1.5")))
               = Returned [mkToken TokenType.Identifier "1"])
    by (vm_compute; reflexivity).
  assert (Hin : In (mkToken TokenType.Identifier "1")
                   [mkToken TokenType.Identifier "1"])
    by (left; reflexivity).
  split; [exact Hr|]. split; [exact Hin|].
  exact (tokenize_kinds _ _ _ _ Hr Hin).
Defined.

(** X17. The text of a returned token holds no whitespace, and it is either
    made of letters and digits only or one single character that is neither
    a letter nor a digit. *)
Theorem token_text_shape (lx : Lexer) (tokens : list Token) (t : Token) :
  string_fits (input lx) ->
  fst (tokenize lx) = Returned tokens ->
  In t tokens ->
  string_forall (fun c => negb (isWhitespace c)) (value t) = true
  /\ (string_forall isAlphaNumeric (value t) = true
      \/ exists c, value t = string1 c /\ isAlphaNumeric c = false).
Proof.
  intros Hfit Hr Hin.
  pose proof (tokenize_Returned _ _ Hr) as [Hlt _].
  assert (Hb : in_bounds lx) by (split; [assumption | lia]).
  destruct (tokenize_cases lx Hb Hlt)
    as [[Hw Ht] | [[Ha Ht] | (Hw & Ha & ty & _ & Ht)]];
    rewrite Ht in Hr; simpl in Hr; injection Hr as <-.
  - contradiction.
  - destruct Hin as [<-|[]]. cbn [value].
    pose proof (take_while_forall isAlphaNumeric (remaining lx)) as Hall.
    split; [|now left].
    apply (string_forall_impl isAlphaNumeric); [|exact Hall].
    intros c Hc. now rewrite (isAlphaNumeric_not_whitespace c Hc).
  - destruct Hin as [<-|[]]. cbn [value]. split.
    + simpl. now rewrite Hw.
    + right. eexists. split; [reflexivity|].
      unfold isAlphaNumeric. rewrite Ha. simpl.
      destruct (isDigit _) eqn:Hd; [|reflexivity].
      apply isDigit_isAlpha in Hd. congruence.
Qed.

Lemma token_text_shape_witness :
  string_fits (input (Lexer_new "for(i"))
  /\ fst (tokenize (Lexer_new "for(i"))
     = Returned [mkToken TokenType.Keyword "for"]
  /\ In (mkToken TokenType.Keyword "for") [mkToken TokenType.Keyword "for"]
  /\ string_forall (fun c => negb (isWhitespace c)) "for" = true.
Proof.
  assert (Hfit : string_fits (input (Lexer_new "for(i")))
    by (vm_compute; reflexivity).
  assert (Hr : fst (tokenize (Lexer_new "for(i"))
               = Returned [mkToken TokenType.Keyword "for"])
    by (vm_compute; reflexivity).
  assert (Hin : In (mkToken TokenType.Keyword "for")
                   [mkToken TokenType.Keyword "for"])
    by (left; reflexivity).
  split; [exact Hfit|]. split; [exact Hr|]. split; [exact Hin|].
  exact (proj1 (token_text_shape _ _ _ Hfit Hr Hin)).
Defined.

(** ** The keyword table, continued *)

Lemma initKeywords_lookup_eq (lx : Lexer) (w : string) :
  keywords (initKeywords lx) !! w
  = if is_keyword_spelling w then Some TokenType.Keyword
    else keywords lx !! w.
Proof.
  unfold initKeywords, map_assign, set_keywords; simpl.
  repeat (rewrite lookup_insert; case_decide; [subst w; reflexivity|]).
  unfold is_keyword_spelling, keyword_spellings; simpl.
  repeat match goal with
         | H : ?k <> w |- _ =>
             rewrite (proj2 (String.eqb_neq w k)) by congruence; clear H
         end.
  reflexivity.
Qed.

(** X18. Whatever the table holds beforehand, [initKeywords] maps each of
    the fourteen spellings to [Keyword], overwriting an earlier entry, and
    leaves every other entry, the input and the cursor as they were. *)
Theorem initKeywords_lookup (lx : Lexer) (w : string) :
  keywords (initKeywords lx) !! w
  = (if is_keyword_spelling w then Some TokenType.Keyword
     else keywords lx !! w)
  /\ input (initKeywords lx) = input lx
  /\ position (initKeywords lx) = position lx.
Proof.
  split; [apply initKeywords_lookup_eq | split; reflexivity].
Qed.

(** X19. [initKeywords] is idempotent: a second call changes nothing. *)
Theorem initKeywords_idempotent (lx : Lexer) :
  initKeywords (initKeywords lx) = initKeywords lx.
Proof.
  assert (Hk : keywords (initKeywords (initKeywords lx))
               = keywords (initKeywords lx)).
  { apply map_eq. intros w. rewrite !initKeywords_lookup_eq.
    now destruct (is_keyword_spelling w). }
  destruct lx as [i p k].
  unfold initKeywords at 1. unfold set_keywords.
  change (input (initKeywords (mkLexer i p k))) with i.
  change (position (initKeywords (mkLexer i p k))) with p.
  unfold initKeywords at 2. unfold set_keywords. cbn [input position].
  f_equal. exact Hk.
Qed.

(** ** Printing *)

(** X20. [getTokenTypeName] gives the eight kinds eight different names: the
    kind of a token can be read back from the printed name. *)
Theorem getTokenTypeName_injective (a b : TokenType.t) :
  getTokenTypeName a = getTokenTypeName b -> a = b.
Proof. destruct a, b; simpl; intros H; (reflexivity || discriminate H). Qed.

Lemma getTokenTypeName_injective_witness :
  getTokenTypeName TokenType.Float = getTokenTypeName TokenType.Float
  /\ TokenType.Float = TokenType.Float.
Proof.
  assert (H : getTokenTypeName TokenType.Float
              = getTokenTypeName TokenType.Float) by reflexivity.
  split; [exact H|].
  exact (getTokenTypeName_injective _ _ H).
Defined.

Lemma printToken_line (cout : string) (token : Token) :
  printToken cout token = String.append cout (token_line token).
Proof.
  unfold printToken, put, token_line.
  now rewrite !string_append_assoc.
Qed.

(** X21. [printTokens] keeps what was written before and appends one line
    per token, in the order of the vector, each of the form
    [Token: <name>, Value: <text>] followed by a newline; for the empty
    vector it writes nothing. *)
Theorem printTokens_lines (tokens : list Token) (cout : string) :
  printTokens tokens cout = String.append cout (token_lines tokens).
Proof.
  unfold printTokens, token_lines. revert cout.
  induction tokens as [|t tokens IH]; intros cout; simpl.
  - now rewrite string_append_nil_r.
  - now rewrite IH, printToken_line, string_append_assoc.
Qed.

(** The demonstration of [main]: one line is printed, for the one token the
    call returns. *)
Example main_output :
  main "" = Some (0%Z, String.append "Token: keyword, Value: int" endl).
Proof. vm_compute. reflexivity. Qed.

(** ** Characters, as classes *)

(** X22. The comparisons of the current character with the two-character
    literals ['//'] (line 181) and [':3'] (line 193) are false for every
    character: they add nothing to the operator and delimiter tests. *)
Theorem two_character_literals_never_match (c : ascii) :
  char_eq c (multichar "/" "/") = false
  /\ char_eq c (multichar ":" "3") = false.
Proof.
  split; apply char_eq_multichar; vm_compute; discriminate.
Qed.

(** X23. [isAlphaNumeric] is the same test as [isAlpha], whose ranges
    already hold the digits; and whatever passes [isDigit] passes [isAlpha],
    which [tokenize] tests first. *)
Theorem isAlphaNumeric_is_isAlpha (c : ascii) :
  isAlphaNumeric c = isAlpha c
  /\ implb (isDigit c) (isAlpha c) = true.
Proof.
  unfold isAlphaNumeric.
  destruct (isDigit c) eqn:Hd.
  - rewrite (isDigit_isAlpha c Hd). split; reflexivity.
  - rewrite orb_false_r. split; reflexivity.
Qed.

(** ** The kind of a token as a function of its text *)

Lemma existsb_eqb_In (c : ascii) (l : list ascii) :
  existsb (Ascii.eqb c) l = true <-> In c l.
Proof.
  rewrite existsb_exists. split.
  - intros (d & Hin & Heq). apply Ascii.eqb_eq in Heq. now subst.
  - intros Hin. exists c. split; [assumption | apply Ascii.eqb_refl].
Qed.

Lemma dispatch_single_kind (c : ascii) (tokens : list Token) (lx : Lexer) :
  isWhitespace c = false ->
  isAlpha c = false ->
  dispatch c tokens lx
  = (Some (push_back tokens (mkToken (single_kind c) (string1 c))),
     position_incr lx).
Proof.
  intros Hw Ha. unfold single_kind.
  destruct (existsb (Ascii.eqb c) ["+"; "-"; "*"; "/"; "%"]%char) eqn:Ho.
  { apply existsb_eqb_In in Ho. now apply dispatch_operator. }
  destruct (existsb (Ascii.eqb c) ["("; ")"; ":"; "["; "]"]%char) eqn:Hd.
  { apply existsb_eqb_In in Hd. now apply dispatch_delimiter. }
  apply dispatch_unknown; try assumption.
  intros Hin.
  assert (Hsplit : In c ["+"; "-"; "*"; "/"; "%"]%char
                   \/ In c ["("; ")"; ":"; "["; "]"]%char)
    by (simpl in Hin |- *; tauto).
  destruct Hsplit as [H|H]; apply existsb_eqb_In in H; congruence.
Qed.

(** X24. Over the table of the constructor the kind of a returned token is
    a function of its text alone: a text that starts with a letter or a
    digit is a [Keyword] if it is one of the fourteen spellings and an
    [Identifier] if not; any other text is one character, an [Operator] for
    [+ - * / %], a [Delimiter] for [( ) : [ ]], and [Unknown] otherwise. *)
Theorem token_kind_of_text (inp : string) (p : N)
    (tokens : list Token) (t : Token) :
  string_fits inp ->
  fst (tokenize (set_position p (Lexer_new inp))) = Returned tokens ->
  In t tokens ->
  type t = kind_of_text (value t).
Proof.
  intros Hfit Hr Hin.
  set (lx := set_position p (Lexer_new inp)) in *.
  pose proof (tokenize_Returned _ _ Hr) as [Hlt _].
  assert (Hb : in_bounds lx) by (split; [assumption | lia]).
  set (c := string_at (input lx) (position lx)).
  destruct (isWhitespace c) eqn:Hw.
  { rewrite (tokenize_whitespace lx Hlt Hw) in Hr.
    injection Hr as <-. contradiction. }
  destruct (isAlpha c) eqn:Ha.
  - rewrite (tokenize_word_run lx Hb Hlt Ha) in Hr.
    injection Hr as <-. destruct Hin as [<-|[]]. cbn [type value].
    match goal with
    | |- context [?m !! _] => change m with (keywords (Lexer_new inp))
    end.
    rewrite keywords_new_lookup.
    destruct (word_run_starts lx Hlt Ha) as [r Hr]. fold c in Hr.
    unfold kind_of_text. rewrite Hr at 2. rewrite Ha.
    now destruct (is_keyword_spelling _).
  - unfold tokenize in Hr. rewrite (proj2 (N.ltb_lt _ _) Hlt) in Hr.
    fold c in Hr. rewrite (dispatch_single_kind c [] lx Hw Ha) in Hr.
    injection Hr as <-. destruct Hin as [<-|[]]. cbn [type value].
    unfold kind_of_text, string1. now rewrite Ha.
Qed.

Lemma token_kind_of_text_witness :
  string_fits "a[i] % 2"
  /\ fst (tokenize (set_position 5 (Lexer_new "a[i] % 2")))
     = Returned [mkToken TokenType.Operator "%"]
  /\ In (mkToken TokenType.Operator "%") [mkToken TokenType.Operator "%"]
  /\ type (mkToken TokenType.Operator "%") = kind_of_text "%".
Proof.
  assert (Hfit : string_fits "a[i] % 2") by (vm_compute; reflexivity).
  assert (Hr : fst (tokenize (set_position 5 (Lexer_new "a[i] % 2")))
               = Returned [mkToken TokenType.Operator "%"])
    by (vm_compute; reflexivity).
  assert (Hin : In (mkToken TokenType.Operator "%")
                   [mkToken TokenType.Operator "%"])
    by (left; reflexivity).
  split; [exact Hfit|]. split; [exact Hr|]. split; [exact Hin|].
  exact (token_kind_of_text _ _ _ _ Hfit Hr Hin).
Defined.
